(** * Key import and the file-based key store of bccsp (gm / sw)

    A shallow embedding of [bccsp/gm/keyimport.go] together with the
    file-based key store it is shipped with: the importers
    ([KeyImport]), the store life cycle ([Init]), retrieval ([GetKey],
    [getSuffix], [searchKeystoreForSKI]) and persistence ([StoreKey]
    and the [store*]/[load*] helpers).

    Go values are modelled as follows.
    - [[]byte] is [byteSlice]: [None] is the nil slice, [Some l] a
      non-nil slice with contents [l].
    - [interface{}] is the inductive [any] of the dynamic types the
      code inspects.
    - [error] is the inductive [error]; [nil] is [None : option error].
    - The file system is an explicit [World]; every call of [os] and
      [ioutil] is a state transformer on it which also appends the call
      to the world's [trace].  The disk is flat: a directory is found
      under the path string it is called by, and its parents are taken
      to exist; what the system answers otherwise (a parent that is a
      file, a directory that may not be searched) is an error injected
      by [faults].
    - The mutex of the store only serialises [Init]; the embedding is
      sequential and leaves it out.  Calls of [logger] have no effect on
      any value the code returns and are left out as well. *)

From Stdlib Require Import ZArith String Ascii List Lia Bool.
From Stdlib.Strings Require Import Byte.
From stdpp Require Import gmap strings list fin_maps sorting pretty.

Open Scope string_scope.

(** ** Byte slices, hexadecimal encoding, string predicates *)

#[global] Instance byte_eq_dec : EqDecision byte := Byte.byte_eq_dec.

Definition byteSlice : Type := option (list byte).

Definition content (b : byteSlice) : list byte :=
  match b with
  | None => []
  | Some l => l
  end.

Definition len (b : byteSlice) : nat := List.length (content b).

(** [make([]byte, len(src)); copy(dst, src)] *)
Definition clone (src : byteSlice) : byteSlice := Some (content src).

(** [bytes.Equal]: a nil slice equals an empty one. *)
Definition bytes_Equal (a b : byteSlice) : bool :=
  bool_decide (content a = content b).

Definition hextable : string := "0123456789abcdef".

Definition hexdigit (n : nat) : ascii :=
  match String.get n hextable with
  | Some c => c
  | None => "0"%char
  end.

Fixpoint hex_encode (src : list byte) : string :=
  match src with
  | [] => ""
  | b :: rest =>
      String (hexdigit (Byte.to_nat b / 16))
        (String (hexdigit (Byte.to_nat b mod 16)) (hex_encode rest))
  end.

(** [hex.EncodeToString]; also what the verb [%x] prints for a slice. *)
Definition hex_EncodeToString (src : byteSlice) : string :=
  hex_encode (content src).

(** [strings.HasPrefix]: [len(s) >= len(prefix) && s[:len(prefix)] == prefix] *)
Definition strings_HasPrefix (s prefix : string) : bool :=
  (String.length prefix <=? String.length s)%nat
  && String.eqb (substring 0 (String.length prefix) s) prefix.

(** [strings.HasSuffix]:
    [len(s) >= len(suffix) && s[len(s)-len(suffix):] == suffix] *)
Definition strings_HasSuffix (s suffix : string) : bool :=
  (String.length suffix <=? String.length s)%nat
  && String.eqb
       (substring (String.length s - String.length suffix)
          (String.length suffix) s)
       suffix.

(** ** Errors *)

Inductive Errno := ENOENT | EACCES | ENOTDIR | EISDIR | EIO.

#[global] Instance Errno_eq_dec : EqDecision Errno.
Proof. solve_decision. Defined.

Definition Errno_string (e : Errno) : string :=
  match e with
  | ENOENT => "no such file or directory"
  | EACCES => "permission denied"
  | ENOTDIR => "not a directory"
  | EISDIR => "is a directory"
  | EIO => "input/output error"
  end.

(** The dynamic types of [error] the code meets: [errors.New] and
    [fmt.Errorf] values, [*os.PathError] and [io.EOF]. *)
Inductive error :=
| errorString (s : string)
| PathError (Op Path : string) (Err : Errno)
| io_EOF.

#[global] Instance error_eq_dec : EqDecision error.
Proof. solve_decision. Defined.

Definition errors_New (s : string) : error := errorString s.

(** The method [Error()]. *)
Definition Error (e : error) : string :=
  match e with
  | errorString s => s
  | PathError op path e => op ++ " " ++ path ++ ": " ++ Errno_string e
  | io_EOF => "EOF"
  end.

Definition os_IsNotExist (e : error) : bool :=
  match e with
  | PathError _ _ ENOENT => true
  | _ => false
  end.

(** A Go result pair [(v, err)] of which exactly one part is set. *)
Inductive result (A : Type) :=
| Ok (v : A)
| Fail (err : error).
Arguments Ok {A} v.
Arguments Fail {A} err.

(** ** The file system *)

(** A directory entry; only regular files and sub-directories occur. *)
Inductive File :=
| Regular (perm : Z) (data : list byte)
| SubDir (perm : Z).

Inductive Node :=
| Directory (perm : Z) (entries : gmap string File)
| NotDirectory.

(** [os.FileInfo], restricted to the methods the code calls. *)
Record FileInfo := { Name : string; IsDir : bool; Size : Z }.

(** [strings.Split(s, "/")] and [strings.Join(l, "/")] *)
Fixpoint split_slash (s : string) : list string :=
  match s with
  | "" => [""]
  | String c rest =>
      if Ascii.eqb c "/" then "" :: split_slash rest
      else match split_slash rest with
           | x :: l => String c x :: l
           | [] => [String c ""]
           end
  end.

Fixpoint join_slash (l : list string) : string :=
  match l with
  | [] => ""
  | [x] => x
  | x :: rest => x ++ "/" ++ join_slash rest
  end.

(** One element of the path in [filepath.Clean]; [out] holds the
    elements kept so far, the last one first.  Empty elements and [.]
    are dropped; [..] removes the element before it, is dropped at the
    root and is kept at the head of a path that is not rooted. *)
Definition clean_element (rooted : bool) (out : list string) (e : string)
  : list string :=
  if String.eqb e "" || String.eqb e "." then out
  else if String.eqb e ".." then
    match out with
    | top :: below => if String.eqb top ".." then e :: out else below
    | [] => if rooted then out else [e]
    end
  else e :: out.

(** [filepath.Clean], for the separator [/] and no volume name. *)
Definition filepath_Clean (p : string) : string :=
  let rooted := strings_HasPrefix p "/" in
  let out := rev (fold_left (clean_element rooted) (split_slash p) []) in
  let s := (if rooted then "/" else "") ++ join_slash out in
  if String.eqb s "" then "." else s.

(** A call [filepath.Join(dir, base)], kept with its two arguments.
    The store joins its path with the name of a file, listed or made of
    an identifier in hexadecimal, an underscore and a suffix.  The
    string that [Join] returns is [Path_string]: the elements from the
    first non-empty one on, joined by the separator and cleaned.  On
    disk the path names the entry [base] of the directory at [dir];
    this is so for a [dir] that is not empty, as is the path of a store
    that [Init] has accepted (with the empty one Go looks the name up
    in the working directory). *)
Record Path := { pdir : string; pbase : string }.

Definition filepath_Join (dir base : string) : Path :=
  {| pdir := dir; pbase := base |}.

Definition Path_string (p : Path) : string :=
  if String.eqb (pdir p) "" then
    if String.eqb (pbase p) "" then "" else filepath_Clean (pbase p)
  else filepath_Clean (pdir p ++ "/" ++ pbase p).

Inductive Syscall :=
| SysStat (path : string)
| SysOpen (path : string)
| SysReaddir (path : string) (n : Z)
| SysMkdirAll (path : string) (perm : Z)
| SysReadDir (path : string)
| SysReadFile (path : Path)
| SysWriteFile (path : Path) (data : list byte) (perm : Z)
| SysWrite (path : Path) (data : list byte)
| SysClose (path : Path).

(** The world the store runs in: what is at each path, the umask of the
    process, the errors the operating system injects (permissions,
    device errors), the number of bytes that a write which fails gets
    to the disk, and the calls made so far, latest first.

    [SysWrite] and [SysClose] are the two steps of [ioutil.WriteFile]
    after it has opened the file.  They are no calls of the store and
    are never logged; they name the errors injected into these steps,
    as [SysWriteFile] names the error injected into the opening. *)
Record World := {
  nodes : gmap string Node;
  umask : Z;
  faults : Syscall -> option Errno;
  short : nat;
  trace : list Syscall
}.

Definition IO (A : Type) : Type := World -> A * World.

Definition ret {A} (a : A) : IO A := fun w => (a, w).

Definition bind {A B} (m : IO A) (k : A -> IO B) : IO B :=
  fun w => let (a, w') := m w in k a w'.

Notation "'let*' x ':=' m 'in' k" := (bind m (fun x => k))
  (at level 10, x pattern, m at level 100, k at level 200, only parsing).

(** The world after the call [c] has been made. *)
Definition logged (c : Syscall) (w : World) : World :=
  {| nodes := nodes w; umask := umask w; faults := faults w;
     short := short w; trace := c :: trace w |}.

Definition set_node (p : string) (n : Node) (w : World) : World :=
  {| nodes := <[p := n]> (nodes w); umask := umask w;
     faults := faults w; short := short w; trace := trace w |}.

Definition file_info (e : string * File) : FileInfo :=
  match e with
  | (name, Regular _ data) =>
      {| Name := name; IsDir := false; Size := Z.of_nat (List.length data) |}
  | (name, SubDir _) => {| Name := name; IsDir := true; Size := 4096 |}
  end.

Definition byName (f g : FileInfo) : Prop := String.leb (Name f) (Name g).

#[global] Instance byName_dec : RelDecision byName.
Proof. intros f g. unfold byName. apply _. Defined.

(** The entries of a directory the way [ioutil.ReadDir] lists them:
    sorted by file name. *)
Definition listing (entries : gmap string File) : list FileInfo :=
  merge_sort byName (file_info <$> map_to_list entries).

(** Each call is given by what it returns in a world and by the world
    it leaves; all of them log themselves, and only [os.MkdirAll] and
    [ioutil.WriteFile] change what is on disk. *)

(** [os.Stat], of which the code only uses the error: none when
    something is at the path, the no-such-file error when nothing is,
    and otherwise what the system injects. *)
Definition stat (w : World) (p : string) : option error :=
  match faults w (SysStat p) with
  | Some e => Some (PathError "stat" p e)
  | None =>
      match nodes w !! p with
      | Some _ => None
      | None => Some (PathError "stat" p ENOENT)
      end
  end.

Definition os_Stat (p : string) : IO (option error) := fun w =>
  (stat w p, logged (SysStat p) w).

(** [os.Open]; the handle is the path itself. *)
Definition open (w : World) (p : string) : result string :=
  match faults w (SysOpen p) with
  | Some e => Fail (PathError "open" p e)
  | None =>
      match nodes w !! p with
      | Some _ => Ok p
      | None => Fail (PathError "open" p ENOENT)
      end
  end.

Definition os_Open (p : string) : IO (result string) := fun w =>
  (open w p, logged (SysOpen p) w).

(** [Readdir(n)] of an open [os.File], for [n > 0]: at most [n]
    entries, [io.EOF] at the end of the directory.  The code only asks
    whether there is an entry, so the order of the entries returned is
    immaterial; they are taken from the sorted listing. *)
Definition readdir (w : World) (handle : string) (n : Z)
  : list FileInfo * option error :=
  match faults w (SysReaddir handle n) with
  | Some e => ([], Some (PathError "readdirent" handle e))
  | None =>
      match nodes w !! handle with
      | Some (Directory _ entries) =>
          match take (Z.to_nat n) (listing entries) with
          | [] => ([], Some io_EOF)
          | l => (l, None)
          end
      | _ => ([], Some (PathError "readdirent" handle ENOTDIR))
      end
  end.

Definition File_Readdir (handle : string) (n : Z)
  : IO (list FileInfo * option error) := fun w =>
  (readdir w handle n, logged (SysReaddir handle n) w).

(** [os.MkdirAll]: nothing to do for a directory that exists; the new
    directory gets [perm] less the bits of the umask.  The parents of
    the path are taken to exist: those that [os.MkdirAll] would create
    on the way are not on this disk. *)
Definition os_MkdirAll (p : string) (perm : Z) : IO (option error) := fun w =>
  let w' := logged (SysMkdirAll p perm) w in
  match faults w (SysMkdirAll p perm) with
  | Some e => (Some (PathError "mkdir" p e), w')
  | None =>
      match nodes w !! p with
      | Some (Directory _ _) => (None, w')
      | Some NotDirectory => (Some (PathError "mkdir" p ENOTDIR), w')
      | None => (None, set_node p (Directory (Z.ldiff perm (umask w)) ∅) w')
      end
  end.

(** [ioutil.ReadDir]: the entries sorted by name, or nil and an error. *)
Definition read_dir (w : World) (p : string) : list FileInfo * option error :=
  match faults w (SysReadDir p) with
  | Some e => ([], Some (PathError "open" p e))
  | None =>
      match nodes w !! p with
      | Some (Directory _ entries) => (listing entries, None)
      | Some NotDirectory => ([], Some (PathError "readdirent" p ENOTDIR))
      | None => ([], Some (PathError "open" p ENOENT))
      end
  end.

Definition ioutil_ReadDir (p : string) : IO (list FileInfo * option error) :=
  fun w => (read_dir w p, logged (SysReadDir p) w).

(** [ioutil.ReadFile] *)
Definition read_file (w : World) (p : Path) : result byteSlice :=
  match faults w (SysReadFile p) with
  | Some e => Fail (PathError "open" (Path_string p) e)
  | None =>
      match nodes w !! pdir p with
      | Some (Directory _ entries) =>
          match entries !! pbase p with
          | Some (Regular _ data) => Ok (Some data)
          | Some (SubDir _) => Fail (PathError "read" (Path_string p) EISDIR)
          | None => Fail (PathError "open" (Path_string p) ENOENT)
          end
      | Some NotDirectory => Fail (PathError "open" (Path_string p) ENOTDIR)
      | None => Fail (PathError "open" (Path_string p) ENOENT)
      end
  end.

Definition ioutil_ReadFile (p : Path) : IO (result byteSlice) := fun w =>
  (read_file w p, logged (SysReadFile p) w).

(** The file of the path [p] holding [data] with the mode [fperm], in
    the directory of mode [dperm] and entries [entries]. *)
Definition put_file (p : Path) (dperm : Z) (entries : gmap string File)
    (fperm : Z) (data : list byte) (w : World) : World :=
  set_node (pdir p)
    (Directory dperm (<[pbase p := Regular fperm data]> entries)) w.

(** [ioutil.WriteFile]: [os.OpenFile] with
    [O_WRONLY|O_CREATE|O_TRUNC], [Write] and [Close].  When the file
    cannot be opened the disk is left as it is.  Once it is open, an
    existing regular file has been truncated and keeps its mode, a new
    one has been created with [perm] less the umask; a [Write] that
    fails leaves in it the bytes it has written and its error is the
    one returned, a [Close] that fails leaves all of them. *)
Definition ioutil_WriteFile (p : Path) (data : byteSlice) (perm : Z)
  : IO (option error) := fun w =>
  let c := SysWriteFile p (content data) perm in
  let w' := logged c w in
  match faults w c with
  | Some e => (Some (PathError "open" (Path_string p) e), w')
  | None =>
      match nodes w !! pdir p with
      | Some (Directory dperm entries) =>
          let opened fperm :=
            match faults w (SysWrite p (content data)) with
            | Some e =>
                (Some (PathError "write" (Path_string p) e),
                 put_file p dperm entries fperm
                   (take (short w) (content data)) w')
            | None =>
                match faults w (SysClose p) with
                | Some e =>
                    (Some (PathError "close" (Path_string p) e),
                     put_file p dperm entries fperm (content data) w')
                | None =>
                    (None, put_file p dperm entries fperm (content data) w')
                end
            end in
          match entries !! pbase p with
          | Some (Regular fperm _) => opened fperm
          | Some (SubDir _) =>
              (Some (PathError "open" (Path_string p) EISDIR), w')
          | None => opened (Z.ldiff perm (umask w))
          end
      | Some NotDirectory => (Some (PathError "open" (Path_string p) ENOTDIR), w')
      | None => (Some (PathError "open" (Path_string p) ENOENT), w')
      end
  end.

(** ** Keys and dynamic values *)

(** [ecdsa.PublicKey], [ecdsa.PrivateKey], [sm2.PublicKey] and
    [sm2.PrivateKey]: a point, and a point with its scalar. *)
Record ecdsa_PublicKey := { ecdsa_X : Z; ecdsa_Y : Z }.
Record ecdsa_PrivateKey := { ecdsa_Public : ecdsa_PublicKey; ecdsa_D : Z }.
Record sm2_PublicKey := { sm2_X : Z; sm2_Y : Z }.
Record sm2_PrivateKey := { sm2_Public : sm2_PublicKey; sm2_D : Z }.

(** [interface{}]: the dynamic types the code tells apart.  A
    certificate is reduced to its [PublicKey] field;
    [any_nil_x509_Certificate] is the nil pointer of the type
    [*x509.Certificate], the one pointer that the code follows.  The
    pointers to keys, which the code only passes on, are taken to be
    non-nil. *)
Inductive any :=
| any_nil
| any_bytes (b : byteSlice)
| any_ecdsa_PrivateKey (k : ecdsa_PrivateKey)
| any_ecdsa_PublicKey (k : ecdsa_PublicKey)
| any_sm2_PrivateKey (k : sm2_PrivateKey)
| any_sm2_PublicKey (k : sm2_PublicKey)
| any_x509_Certificate (PublicKey : any)
| any_other (typ : string)
| any_nil_x509_Certificate.

(** The implementations of [bccsp.Key].  The first six are the types of
    package [sw], which the store builds and tells apart.  The
    importers are of package [gm] and build the types [sm2PrivateKey],
    [sm2PublicKey] and [sm4PrivateKey] of that package, which are other
    types than those of the same names in [sw]: they are [gm_...]
    here.  [foreignKey] is any other implementation.  Here too pointers
    are non-nil; the nil interface value is [None : option Key]. *)
Inductive Key :=
| ecdsaPrivateKey (privKey : ecdsa_PrivateKey)
| ecdsaPublicKey (pubKey : ecdsa_PublicKey)
| sm2PrivateKey (privKey : sm2_PrivateKey)
| sm2PublicKey (pubKey : sm2_PublicKey)
| aesPrivateKey (privKey : byteSlice) (exportable : bool)
| sm4PrivateKey (privKey : byteSlice) (exportable : bool)
| foreignKey (typ : string)
| gm_sm2PrivateKey (privKey : sm2_PrivateKey)
| gm_sm2PublicKey (pubKey : sm2_PublicKey)
| gm_sm4PrivateKey (privKey : byteSlice) (exportable : bool).

(** Modelled from the spec: the methods [Symmetric] and [Private] of the
    key types, whose declarations are not in [keyimport.go] (section 3,
    "classification flags": symmetric keys are private, asymmetric keys
    are private or public by their variant). *)
Definition Symmetric (k : Key) : bool :=
  match k with
  | aesPrivateKey _ _ | sm4PrivateKey _ _ | gm_sm4PrivateKey _ _ => true
  | _ => false
  end.

Definition Private (k : Key) : bool :=
  match k with
  | ecdsaPublicKey _ | sm2PublicKey _ | gm_sm2PublicKey _ => false
  | _ => true
  end.

(** What the code calls and [keyimport.go] does not define: the method
    [SKI] of the keys, the PEM codec of package [utils], the two DER
    parsers and the rendering of a key by the verb [%s].  An encoder
    that encrypts may draw a fresh salt on every call; every statement
    below is about the record of one call, and none compares the
    records of two. *)
Class Collaborators := {
  SKI : Key -> byteSlice;
  PrivateKeyToPEM : any -> byteSlice -> result byteSlice;
  PEMtoPrivateKey : byteSlice -> byteSlice -> result any;
  PublicKeyToPEM : any -> byteSlice -> result byteSlice;
  PEMtoPublicKey : byteSlice -> byteSlice -> result any;
  AEStoEncryptedPEM : byteSlice -> byteSlice -> result byteSlice;
  PEMtoAES : byteSlice -> byteSlice -> result byteSlice;
  SM4EncryptPEMBlock : string -> byteSlice -> byteSlice -> result byteSlice;
  parsePKIXSM2PublicKey : byteSlice -> result sm2_PublicKey;
  parsePKCS8SM2PrivateKey : byteSlice -> result sm2_PrivateKey;
  fmt_s : Key -> string
}.

(** Modelled from the spec: equality of keys (4.1), "equality of their
    identifiers combined with equality of the private/symmetric flags". *)
Definition Key_equal `{Collaborators} (k1 k2 : Key) : bool :=
  bytes_Equal (SKI k1) (SKI k2)
  && Bool.eqb (Private k1) (Private k2)
  && Bool.eqb (Symmetric k1) (Symmetric k2).

(** ** The file-based key store *)

Record fileBasedKeyStore := {
  path : string;
  readOnly : bool;
  isOpen : bool;
  pwd : byteSlice
}.

(** The zero value [&fileBasedKeyStore{}]. *)
Definition new_fileBasedKeyStore : fileBasedKeyStore :=
  {| path := ""; readOnly := false; isOpen := false; pwd := None |}.

Definition dirExists (p : string) : IO (bool * option error) :=
  let* err := os_Stat p in
  match err with
  | None => ret (true, None)
  | Some e => if os_IsNotExist e then ret (false, None) else ret (false, Some e)
  end.

Definition dirEmpty (p : string) : IO (bool * option error) :=
  let* f := os_Open p in
  match f with
  | Fail e => ret (false, Some e)
  | Ok f =>
      let* r := File_Readdir f 1 in
      match snd r with
      | Some io_EOF => ret (true, None)
      | err => ret (false, err)
      end
  end.

(** The octal literals [0755] and [0600]. *)
Definition mode_0755 : Z := 7 * 64 + 5 * 8 + 5.
Definition mode_0600 : Z := 6 * 64 + 0 * 8 + 0.

Definition createKeyStore (ks : fileBasedKeyStore) : IO (option error) :=
  let ksPath := path ks in
  let* err := os_MkdirAll ksPath mode_0755 in
  match err with
  | Some e => ret (Some e)
  | None => ret None
  end.

Definition openKeyStore (ks : fileBasedKeyStore)
  : IO (option error * fileBasedKeyStore) :=
  if isOpen ks then ret (None, ks)
  else ret (None, {| path := path ks; readOnly := readOnly ks;
                     isOpen := true; pwd := pwd ks |}).

(** [Init] returns its error together with the store as the call leaves
    it. *)
Definition Init (ks : fileBasedKeyStore) (pwd0 : byteSlice) (path0 : string)
    (readOnly0 : bool) : IO (option error * fileBasedKeyStore) :=
  if (String.length path0 =? 0)%nat then
    ret (Some (errors_New
           "an invalid KeyStore path provided. Path cannot be an empty string"),
         ks)
  else if isOpen ks then
    ret (Some (errors_New "keystore is already initialized"), ks)
  else
    let ks := {| path := path0; readOnly := readOnly0;
                 isOpen := isOpen ks; pwd := clone pwd0 |} in
    let* r := dirExists path0 in
    match r with
    | (_, Some err) => ret (Some err, ks)
    | (false, None) =>
        let* err := createKeyStore ks in
        match err with
        | Some err => ret (Some err, ks)
        | None => openKeyStore ks
        end
    | (true, None) =>
        let* r := dirEmpty path0 in
        match r with
        | (_, Some err) => ret (Some err, ks)
        | (true, None) =>
            let* err := createKeyStore ks in
            match err with
            | Some err => ret (Some err, ks)
            | None => openKeyStore ks
            end
        | (false, None) => openKeyStore ks
        end
    end.

Definition ReadOnly (ks : fileBasedKeyStore) : bool := readOnly ks.

(** [NewFileBasedKeyStore] returns the store, as [Init] leaves it,
    together with the error of [Init]. *)
Definition NewFileBasedKeyStore (pwd0 : byteSlice) (path0 : string)
    (readOnly0 : bool) : IO (fileBasedKeyStore * option error) :=
  let ks := new_fileBasedKeyStore in
  let* r := Init ks pwd0 path0 readOnly0 in
  ret (snd r, fst r).

Definition getPathForAlias (ks : fileBasedKeyStore) (alias suffix : string)
  : Path :=
  filepath_Join (path ks) (alias ++ "_" ++ suffix).

(** The loop of [getSuffix]; the [break] leaves it with the empty
    suffix. *)
Fixpoint getSuffix_loop (alias : string) (files : list FileInfo) : string :=
  match files with
  | [] => ""
  | f :: rest =>
      if strings_HasPrefix (Name f) alias then
        if strings_HasSuffix (Name f) "sk" then "sk"
        else if strings_HasSuffix (Name f) "pk" then "pk"
        else if strings_HasSuffix (Name f) "key" then "key"
        else ""
      else getSuffix_loop alias rest
  end.

Definition getSuffix (ks : fileBasedKeyStore) (alias : string) : IO string :=
  let* r := ioutil_ReadDir (path ks) in
  ret (getSuffix_loop alias (fst r)).

Section Store.
Context `{Collaborators}.

Definition storePrivateKey (ks : fileBasedKeyStore) (alias : string)
    (privateKey : any) : IO (option error) :=
  match PrivateKeyToPEM privateKey (pwd ks) with
  | Fail err => ret (Some err)
  | Ok rawKey =>
      let* err := ioutil_WriteFile (getPathForAlias ks alias "sk") rawKey mode_0600 in
      match err with
      | Some err => ret (Some err)
      | None => ret None
      end
  end.

Definition storePublicKey (ks : fileBasedKeyStore) (alias : string)
    (publicKey : any) : IO (option error) :=
  match PublicKeyToPEM publicKey (pwd ks) with
  | Fail err => ret (Some err)
  | Ok rawKey =>
      let* err := ioutil_WriteFile (getPathForAlias ks alias "pk") rawKey mode_0600 in
      match err with
      | Some err => ret (Some err)
      | None => ret None
      end
  end.

Definition storeKey (ks : fileBasedKeyStore) (alias : string)
    (key : byteSlice) : IO (option error) :=
  match AEStoEncryptedPEM key (pwd ks) with
  | Fail err => ret (Some err)
  | Ok pem =>
      let* err := ioutil_WriteFile (getPathForAlias ks alias "key") pem mode_0600 in
      match err with
      | Some err => ret (Some err)
      | None => ret None
      end
  end.

Definition storeSm4Key (ks : fileBasedKeyStore) (alias : string)
    (key : byteSlice) : IO (option error) :=
  let blockType := "SM4 PRIVATE KEY" in
  match SM4EncryptPEMBlock blockType key (pwd ks) with
  | Fail err => ret (Some err)
  | Ok pem =>
      let* err := ioutil_WriteFile (getPathForAlias ks alias "sm4key") pem mode_0600 in
      match err with
      | Some err => ret (Some err)
      | None => ret None
      end
  end.

Definition loadPrivateKey (ks : fileBasedKeyStore) (alias : string)
  : IO (result any) :=
  let p := getPathForAlias ks alias "sk" in
  let* raw := ioutil_ReadFile p in
  match raw with
  | Fail err => ret (Fail err)
  | Ok raw =>
      match PEMtoPrivateKey raw (pwd ks) with
      | Fail err => ret (Fail err)
      | Ok privateKey => ret (Ok privateKey)
      end
  end.

Definition loadPublicKey (ks : fileBasedKeyStore) (alias : string)
  : IO (result any) :=
  let p := getPathForAlias ks alias "pk" in
  let* raw := ioutil_ReadFile p in
  match raw with
  | Fail err => ret (Fail err)
  | Ok raw =>
      match PEMtoPublicKey raw (pwd ks) with
      | Fail err => ret (Fail err)
      | Ok privateKey => ret (Ok privateKey)
      end
  end.

Definition loadKey (ks : fileBasedKeyStore) (alias : string)
  : IO (result byteSlice) :=
  let p := getPathForAlias ks alias "key" in
  let* pem := ioutil_ReadFile p in
  match pem with
  | Fail err => ret (Fail err)
  | Ok pem =>
      match PEMtoAES pem (pwd ks) with
      | Fail err => ret (Fail err)
      | Ok key => ret (Ok key)
      end
  end.

Definition loadSM4Key (ks : fileBasedKeyStore) (alias : string)
  : IO (result byteSlice) :=
  let p := getPathForAlias ks alias "sm4key" in
  let* pem := ioutil_ReadFile p in
  match pem with
  | Fail err => ret (Fail err)
  | Ok pem =>
      match PEMtoAES pem (pwd ks) with
      | Fail err => ret (Fail err)
      | Ok key => ret (Ok key)
      end
  end.

(** The loop of [searchKeystoreForSKI] over the listed files, and the
    failure that follows it. *)
Fixpoint searchKeystoreForSKI_loop (ks : fileBasedKeyStore) (ski : byteSlice)
    (files : list FileInfo) : IO (result Key) :=
  match files with
  | [] =>
      ret (Fail (errorString
             ("key with SKI " ++ hex_EncodeToString ski
              ++ " not found in " ++ path ks)))
  | f :: rest =>
      if IsDir f then searchKeystoreForSKI_loop ks ski rest
      else if (Size f >? Z.shiftl 1 16)%Z then
        searchKeystoreForSKI_loop ks ski rest
      else
        let* raw := ioutil_ReadFile (filepath_Join (path ks) (Name f)) in
        match raw with
        | Fail _ => searchKeystoreForSKI_loop ks ski rest
        | Ok raw =>
            match PEMtoPrivateKey raw (pwd ks) with
            | Fail _ => searchKeystoreForSKI_loop ks ski rest
            | Ok key =>
                match key with
                | any_ecdsa_PrivateKey kk =>
                    let k := ecdsaPrivateKey kk in
                    if negb (bytes_Equal (SKI k) ski) then
                      searchKeystoreForSKI_loop ks ski rest
                    else ret (Ok k)
                | any_sm2_PrivateKey kk =>
                    let k := sm2PrivateKey kk in
                    if negb (bytes_Equal (SKI k) ski) then
                      searchKeystoreForSKI_loop ks ski rest
                    else ret (Ok k)
                | _ => searchKeystoreForSKI_loop ks ski rest
                end
            end
        end
  end.

Definition searchKeystoreForSKI (ks : fileBasedKeyStore) (ski : byteSlice)
  : IO (result Key) :=
  let* r := ioutil_ReadDir (path ks) in
  searchKeystoreForSKI_loop ks ski (fst r).

Definition GetKey (ks : fileBasedKeyStore) (ski : byteSlice)
  : IO (result Key) :=
  if (len ski =? 0)%nat then
    ret (Fail (errors_New "invalid SKI. Cannot be of zero length"))
  else
    let* suffix := getSuffix ks (hex_EncodeToString ski) in
    if String.eqb suffix "key" then
      let* key := loadKey ks (hex_EncodeToString ski) in
      match key with
      | Fail err =>
          ret (Fail (errorString
                 ("failed loading key [" ++ hex_EncodeToString ski ++ "] ["
                  ++ Error err ++ "]")))
      | Ok key => ret (Ok (aesPrivateKey key false))
      end
    else if String.eqb suffix "sm4key" then
      let* key := loadSM4Key ks (hex_EncodeToString ski) in
      match key with
      | Fail err =>
          ret (Fail (errorString
                 ("failed loading sm4key [" ++ hex_EncodeToString ski ++ "] ["
                  ++ Error err ++ "]")))
      | Ok key => ret (Ok (sm4PrivateKey key false))
      end
    else if String.eqb suffix "sk" then
      let* key := loadPrivateKey ks (hex_EncodeToString ski) in
      match key with
      | Fail err =>
          ret (Fail (errorString
                 ("failed loading secret key [" ++ hex_EncodeToString ski
                  ++ "] [" ++ Error err ++ "]")))
      | Ok (any_ecdsa_PrivateKey k) => ret (Ok (ecdsaPrivateKey k))
      | Ok (any_sm2_PrivateKey k) => ret (Ok (sm2PrivateKey k))
      | Ok _ => ret (Fail (errors_New "secret key type not recognized"))
      end
    else if String.eqb suffix "pk" then
      let* key := loadPublicKey ks (hex_EncodeToString ski) in
      match key with
      | Fail err =>
          ret (Fail (errorString
                 ("failed loading public key [" ++ hex_EncodeToString ski
                  ++ "] [" ++ Error err ++ "]")))
      | Ok (any_ecdsa_PublicKey k) => ret (Ok (ecdsaPublicKey k))
      | Ok (any_sm2_PublicKey k) => ret (Ok (sm2PublicKey k))
      | Ok _ => ret (Fail (errors_New "public key type not recognized"))
      end
    else searchKeystoreForSKI ks ski.

(** [fmt.Errorf(format + " [%s]", err)] of the branches of [StoreKey]. *)
Definition wrap (what : string) (r : option error) : option error :=
  match r with
  | Some err => Some (errorString (what ++ " [" ++ Error err ++ "]"))
  | None => None
  end.

(** [k] is [None] for the nil interface value. *)
Definition StoreKey (ks : fileBasedKeyStore) (k : option Key)
  : IO (option error) :=
  if readOnly ks then ret (Some (errors_New "read only KeyStore"))
  else
    match k with
    | None =>
        ret (Some (errors_New "invalid key. It must be different from nil"))
    | Some k =>
        match k with
        | ecdsaPrivateKey privKey =>
            let* err := storePrivateKey ks (hex_EncodeToString (SKI k))
                          (any_ecdsa_PrivateKey privKey) in
            ret (wrap "failed storing ECDSA private key" err)
        | sm2PrivateKey privKey =>
            let* err := storePrivateKey ks (hex_EncodeToString (SKI k))
                          (any_sm2_PrivateKey privKey) in
            ret (wrap "failed storing SM2 private key" err)
        | ecdsaPublicKey pubKey =>
            let* err := storePublicKey ks (hex_EncodeToString (SKI k))
                          (any_ecdsa_PublicKey pubKey) in
            ret (wrap "failed storing ECDSA public key" err)
        | sm2PublicKey pubKey =>
            let* err := storePublicKey ks (hex_EncodeToString (SKI k))
                          (any_sm2_PublicKey pubKey) in
            ret (wrap "failed storing SM2 public key" err)
        | aesPrivateKey privKey _ =>
            let* err := storeKey ks (hex_EncodeToString (SKI k)) privKey in
            ret (wrap "failed storing AES key" err)
        | sm4PrivateKey privKey _ =>
            let* err := storeSm4Key ks (hex_EncodeToString (SKI k)) privKey in
            ret (wrap "failed storing SM4 key" err)
        | foreignKey _ | gm_sm2PrivateKey _ | gm_sm2PublicKey _
        | gm_sm4PrivateKey _ _ =>
            ret (Some (errorString
                   ("key type not reconigned [" ++ fmt_s k ++ "]")))
        end
    end.

End Store.

(** ** Import options and importers *)

(** A call returns or panics (a method called on a nil interface value,
    a nil pointer followed). *)
Inductive outcome (A : Type) :=
| Returns (r : A)
| Panics.
Arguments Returns {A} r.
Arguments Panics {A}.

(** The values of the interface [bccsp.KeyImportOpts].  The first ten
    are non-nil pointers to the structs of the source, each with the
    one field [Temporary]; [SM2GoPublicKeyImportOpts] is the type the
    certificate importer names.  [nil_KeyImportOpts] is the nil
    interface value.  [otherKeyImportOpts] is any other value, given by
    the name of its type and by what its two methods do; a nil pointer
    to one of the structs is such a value: its method [Algorithm]
    returns the constant of the type and its method [Ephemeral], which
    follows the pointer, panics. *)
Inductive KeyImportOpts :=
| ECDSAPKIXPublicKeyImportOpts (Temporary : bool)
| ECDSAPrivateKeyImportOpts (Temporary : bool)
| SM2PrivateKeyImportOpts (Temporary : bool)
| ECDSAGoPublicKeyImportOpts (Temporary : bool)
| SM2PublicKeyImportOpts (Temporary : bool)
| SM2GoPublicKeyImportOpts (Temporary : bool)
| AES256ImportKeyOpts (Temporary : bool)
| SM4ImportKeyOpts (Temporary : bool)
| HMACImportKeyOpts (Temporary : bool)
| X509PublicKeyImportOpts (Temporary : bool)
| nil_KeyImportOpts
| otherKeyImportOpts (typ : string) (algorithm : outcome string)
    (ephemeral : outcome bool).

Definition Ephemeral (opts : KeyImportOpts) : outcome bool :=
  match opts with
  | ECDSAPKIXPublicKeyImportOpts t | ECDSAPrivateKeyImportOpts t
  | SM2PrivateKeyImportOpts t | ECDSAGoPublicKeyImportOpts t
  | SM2PublicKeyImportOpts t | SM2GoPublicKeyImportOpts t
  | AES256ImportKeyOpts t | SM4ImportKeyOpts t | HMACImportKeyOpts t
  | X509PublicKeyImportOpts t => Returns t
  | nil_KeyImportOpts => Panics
  | otherKeyImportOpts _ _ ephemeral => ephemeral
  end.


(** [reflect.TypeOf(opts)], by the name of the type: the key of the
    registry. *)
Definition reflect_TypeOf (opts : KeyImportOpts) : string :=
  match opts with
  | ECDSAPKIXPublicKeyImportOpts _ => "*bccsp.ECDSAPKIXPublicKeyImportOpts"
  | ECDSAPrivateKeyImportOpts _ => "*bccsp.ECDSAPrivateKeyImportOpts"
  | SM2PrivateKeyImportOpts _ => "*bccsp.SM2PrivateKeyImportOpts"
  | ECDSAGoPublicKeyImportOpts _ => "*bccsp.ECDSAGoPublicKeyImportOpts"
  | SM2PublicKeyImportOpts _ => "*bccsp.SM2PublicKeyImportOpts"
  | SM2GoPublicKeyImportOpts _ => "*bccsp.SM2GoPublicKeyImportOpts"
  | AES256ImportKeyOpts _ => "*bccsp.AES256ImportKeyOpts"
  | SM4ImportKeyOpts _ => "*bccsp.SM4ImportKeyOpts"
  | HMACImportKeyOpts _ => "*bccsp.HMACImportKeyOpts"
  | X509PublicKeyImportOpts _ => "*bccsp.X509PublicKeyImportOpts"
  | nil_KeyImportOpts => "<nil>"
  | otherKeyImportOpts typ _ _ => typ
  end.

(** The implementations of the interface [KeyImporter]: the five of the
    source, the last of which holds a pointer to a [CSP], and any other
    one (a test double) given by its method.  The pointer [bccsp] is an
    address in the heap of registries; the nil pointer is an address at
    which the heap holds nothing. *)
Inductive KeyImporter :=
| sm4ImportKeyOptsKeyImporter
| sm2PKIXPublicKeyImportOptsKeyImporter
| sm2PrivateKeyImportOptsKeyImporter
| sm2GoPublicKeyImportOptsKeyImporter
| x509PublicKeyImportOptsKeyImporter (bccsp : nat)
| otherKeyImporter (method : any -> KeyImportOpts -> outcome (result Key)).

(** The registry: of [CSP] the code only reads the field
    [KeyImporters], a map from the type of the options to the importer.
    Registries live in a heap and are referred to by address. *)
Record CSP := { KeyImporters : gmap string KeyImporter }.

Section Importers.
Context `{Collaborators}.

Definition sm4_KeyImport (raw : any) (opts : KeyImportOpts) : result Key :=
  match raw with
  | any_bytes sm4Raw =>
      match sm4Raw with
      | None => Fail (errors_New "invalid raw material, it must not be nil")
      | Some _ =>
          if negb (len sm4Raw =? 16)%nat then
            Fail (errorString
                    ("invalid Key Length [" ++ pretty (len sm4Raw)
                     ++ "], must be 16 bytes"))
          else Ok (gm_sm4PrivateKey sm4Raw false)
      end
  | _ => Fail (errors_New "invalid raw material, expected byte array")
  end.

Definition sm2PKIX_KeyImport (raw : any) (opts : KeyImportOpts) : result Key :=
  match raw with
  | any_bytes der =>
      if (len der =? 0)%nat then
        Fail (errors_New "Invalid raw. It must not be nil.")
      else
        match parsePKIXSM2PublicKey der with
        | Fail err =>
            Fail (errorString
                    ("Failed converting PKIX to SM2 public key ["
                     ++ Error err ++ "]"))
        | Ok sm2PK => Ok (gm_sm2PublicKey sm2PK)
        end
  | _ => Fail (errors_New "Invalid raw material. Expected byte array.")
  end.

Definition sm2Private_KeyImport (raw : any) (opts : KeyImportOpts)
  : result Key :=
  match raw with
  | any_bytes der =>
      if (len der =? 0)%nat then
        Fail (errors_New "invalid raw, it must not be nil")
      else
        match parsePKCS8SM2PrivateKey der with
        | Fail err =>
            Fail (errorString
                    ("Failed converting PKIX to SM2 public key ["
                     ++ Error err ++ "]"))
        | Ok sm2Priv => Ok (gm_sm2PrivateKey sm2Priv)
        end
  | _ =>
      Fail (errors_New
              "Invalid raw material for SM2 private key import,expected byte array")
  end.

Definition sm2Go_KeyImport (raw : any) (opts : KeyImportOpts) : result Key :=
  match raw with
  | any_sm2_PublicKey pubKey => Ok (gm_sm2PublicKey pubKey)
  | _ => Fail (errors_New "invalid raw material. Expected *sm2.PublicKey")
  end.

(** The method [KeyImport] of an importer [ki], in the heap [h] of
    registries.  The certificate importer follows the pointer to the
    certificate, and for a public key of the type [*sm2.PublicKey]
    calls the method of whatever importer the registry [ki.bccsp]
    holds for the type [*bccsp.SM2GoPublicKeyImportOpts], on that key
    and on new options with the flag that [opts.Ephemeral()] returns.
    It panics when the certificate is the nil pointer, and in the call
    when the pointer [ki.bccsp] is nil, when the registry holds no
    importer for the type (the method is then called on a nil interface
    value) or when [opts.Ephemeral()] panics. *)
Fixpoint KeyImport (h : gmap nat CSP) (ki : KeyImporter) (raw : any)
    (opts : KeyImportOpts) {struct raw} : outcome (result Key) :=
  match ki with
  | sm4ImportKeyOptsKeyImporter => Returns (sm4_KeyImport raw opts)
  | sm2PKIXPublicKeyImportOptsKeyImporter => Returns (sm2PKIX_KeyImport raw opts)
  | sm2PrivateKeyImportOptsKeyImporter => Returns (sm2Private_KeyImport raw opts)
  | sm2GoPublicKeyImportOptsKeyImporter => Returns (sm2Go_KeyImport raw opts)
  | x509PublicKeyImportOptsKeyImporter bccsp =>
      match raw with
      | any_x509_Certificate pk =>
          match pk with
          | any_sm2_PublicKey _ =>
              match h !! bccsp with
              | None => Panics
              | Some csp =>
                  match KeyImporters csp
                          !! reflect_TypeOf (SM2GoPublicKeyImportOpts false) with
                  | None => Panics
                  | Some importer =>
                      match Ephemeral opts with
                      | Panics => Panics
                      | Returns t =>
                          KeyImport h importer pk (SM2GoPublicKeyImportOpts t)
                      end
                  end
              end
          | _ =>
              Returns (Fail (errors_New
                "Certificate's public key type not recognized. Supported keys: [ECDSA]."))
          end
      | any_nil_x509_Certificate => Panics
      | _ =>
          Returns (Fail (errors_New
            "Invalid raw material. Expected *x509.Certificate."))
      end
  | otherKeyImporter method => method raw opts
  end.


End Importers.

(** ** A concrete instance: toy collaborators and small worlds

    The theorems below hold for every instance of [Collaborators].  To
    run the store on concrete inputs, this instance encodes a key as a
    tag, the password and the coordinates, two bytes each, and takes as
    identifier the big-endian bytes of the first coordinate (of the raw
    bytes, for a symmetric key). *)
Module Demo.

Definition byte_of_Z (z : Z) : byte :=
  match Byte.of_N (Z.to_N (z mod 256)) with
  | Some b => b
  | None => x00
  end.

Definition Z_of_byte (b : byte) : Z := Z.of_N (Byte.to_N b).

Fixpoint be_bytes (fuel : nat) (z : Z) (acc : list byte) : list byte :=
  match fuel with
  | O => acc
  | S fuel => if (z =? 0)%Z then acc
              else be_bytes fuel (z / 256) (byte_of_Z z :: acc)
  end.

Definition field (z : Z) : list byte := [byte_of_Z (z / 256); byte_of_Z z].

Definition unfield (hi lo : byte) : Z := 256 * Z_of_byte hi + Z_of_byte lo.

Definition seal (tag : byte) (pwd payload : byteSlice) : result byteSlice :=
  Ok (Some (tag :: content pwd ++ content payload)%list).

Definition unseal (tag : byte) (raw pwd : byteSlice) : result (list byte) :=
  match content raw with
  | t :: rest =>
      if bool_decide (t = tag)
         && bool_decide (take (len pwd) rest = content pwd)
      then Ok (drop (len pwd) rest)
      else Fail (errors_New "failed decoding PEM")
  | [] => Fail (errors_New "failed decoding PEM")
  end.

Definition ski (k : Key) : byteSlice :=
  match k with
  | ecdsaPrivateKey k => Some (be_bytes 32 (ecdsa_X (ecdsa_Public k)) [])
  | ecdsaPublicKey k => Some (be_bytes 32 (ecdsa_X k) [])
  | sm2PrivateKey k => Some (be_bytes 32 (sm2_X (sm2_Public k)) [])
  | sm2PublicKey k => Some (be_bytes 32 (sm2_X k) [])
  | aesPrivateKey raw _ | sm4PrivateKey raw _ => Some (content raw)
  | foreignKey _ => None
  | gm_sm2PrivateKey k => Some (be_bytes 32 (sm2_X (sm2_Public k)) [])
  | gm_sm2PublicKey k => Some (be_bytes 32 (sm2_X k) [])
  | gm_sm4PrivateKey raw _ => Some (content raw)
  end.

Definition private_to_pem (k : any) (pwd : byteSlice) : result byteSlice :=
  match k with
  | any_ecdsa_PrivateKey k =>
      seal x01 pwd
        (Some (field (ecdsa_X (ecdsa_Public k)) ++ field (ecdsa_Y (ecdsa_Public k))
               ++ field (ecdsa_D k))%list)
  | any_sm2_PrivateKey k =>
      seal x02 pwd
        (Some (field (sm2_X (sm2_Public k)) ++ field (sm2_Y (sm2_Public k))
               ++ field (sm2_D k))%list)
  | _ => Fail (errors_New "invalid key type")
  end.

Definition pem_to_private (raw pwd : byteSlice) : result any :=
  match unseal x01 raw pwd, unseal x02 raw pwd with
  | Ok [a; b; c; d; e; f], _ =>
      Ok (any_ecdsa_PrivateKey
            {| ecdsa_Public := {| ecdsa_X := unfield a b; ecdsa_Y := unfield c d |};
               ecdsa_D := unfield e f |})
  | _, Ok [a; b; c; d; e; f] =>
      Ok (any_sm2_PrivateKey
            {| sm2_Public := {| sm2_X := unfield a b; sm2_Y := unfield c d |};
               sm2_D := unfield e f |})
  | _, _ => Fail (errors_New "failed decoding PEM")
  end.

Definition public_to_pem (k : any) (pwd : byteSlice) : result byteSlice :=
  match k with
  | any_ecdsa_PublicKey k => seal x03 pwd (Some (field (ecdsa_X k) ++ field (ecdsa_Y k))%list)
  | any_sm2_PublicKey k => seal x04 pwd (Some (field (sm2_X k) ++ field (sm2_Y k))%list)
  | _ => Fail (errors_New "invalid key type")
  end.

Definition pem_to_public (raw pwd : byteSlice) : result any :=
  match unseal x03 raw pwd, unseal x04 raw pwd with
  | Ok [a; b; c; d], _ =>
      Ok (any_ecdsa_PublicKey {| ecdsa_X := unfield a b; ecdsa_Y := unfield c d |})
  | _, Ok [a; b; c; d] =>
      Ok (any_sm2_PublicKey {| sm2_X := unfield a b; sm2_Y := unfield c d |})
  | _, _ => Fail (errors_New "failed decoding PEM")
  end.

Definition pem_to_aes (raw pwd : byteSlice) : result byteSlice :=
  match unseal x05 raw pwd with
  | Ok l => Ok (Some l)
  | Fail e => Fail e
  end.

Definition collaborators : Collaborators := {|
  SKI := ski;
  PrivateKeyToPEM := private_to_pem;
  PEMtoPrivateKey := pem_to_private;
  PublicKeyToPEM := public_to_pem;
  PEMtoPublicKey := pem_to_public;
  AEStoEncryptedPEM := fun key pwd => seal x05 pwd key;
  PEMtoAES := pem_to_aes;
  SM4EncryptPEMBlock := fun _ key pwd => seal x05 pwd key;
  parsePKIXSM2PublicKey := fun der =>
    match content der with
    | [a; b; c; d] => Ok {| sm2_X := unfield a b; sm2_Y := unfield c d |}
    | _ => Fail (errors_New "failed parsing DER")
    end;
  parsePKCS8SM2PrivateKey := fun der =>
    match content der with
    | [a; b; c; d; e; f] =>
        Ok {| sm2_Public := {| sm2_X := unfield a b; sm2_Y := unfield c d |};
              sm2_D := unfield e f |}
    | _ => Fail (errors_New "failed parsing DER")
    end;
  fmt_s := fun _ => "&{}"
|}.

(** Collaborators whose codec refuses every record. *)
Definition locked : Collaborators := {|
  SKI := ski;
  PrivateKeyToPEM := fun _ _ => Fail (errors_New "codec unavailable");
  PEMtoPrivateKey := fun _ _ => Fail (errors_New "codec unavailable");
  PublicKeyToPEM := fun _ _ => Fail (errors_New "codec unavailable");
  PEMtoPublicKey := fun _ _ => Fail (errors_New "codec unavailable");
  AEStoEncryptedPEM := fun _ _ => Fail (errors_New "codec unavailable");
  PEMtoAES := fun _ _ => Fail (errors_New "codec unavailable");
  SM4EncryptPEMBlock := fun _ _ _ => Fail (errors_New "codec unavailable");
  parsePKIXSM2PublicKey := fun _ => Fail (errors_New "codec unavailable");
  parsePKCS8SM2PrivateKey := fun _ => Fail (errors_New "codec unavailable");
  fmt_s := fun _ => "&{}"
|}.

(** A world with the given nodes, umask [022], no injected error and an
    empty trace. *)
Definition world (ns : gmap string Node) : World :=
  {| nodes := ns; umask := 2 * 8 + 2; faults := fun _ => None; short := 0;
     trace := [] |}.


Definition sm2_private (x y d : Z) : sm2_PrivateKey :=
  {| sm2_Public := {| sm2_X := x; sm2_Y := y |}; sm2_D := d |}.

Definition store (dir : string) (ro : bool) (password : byteSlice)
  : fileBasedKeyStore :=
  {| path := dir; readOnly := ro; isOpen := true; pwd := password |}.

Definition sixteen : list byte :=
  [x00; x01; x02; x03; x04; x05; x06; x07; x08; x09; x0a; x0b; x0c; x0d; x0e; x0f].

Definition pem_of (r : result byteSlice) : list byte :=
  match r with
  | Ok b => content b
  | Fail _ => []
  end.

(** A registry with each importer of the source under the type of its
    options; the certificate importer points to the registry at the
    address [self], which is this registry when it is put there. *)
Definition registry (self : nat) : CSP :=
  {| KeyImporters :=
       list_to_map
         [("*bccsp.SM4ImportKeyOpts", sm4ImportKeyOptsKeyImporter);
          ("*bccsp.SM2PublicKeyImportOpts", sm2PKIXPublicKeyImportOptsKeyImporter);
          ("*bccsp.SM2PrivateKeyImportOpts", sm2PrivateKeyImportOptsKeyImporter);
          ("*bccsp.SM2GoPublicKeyImportOpts", sm2GoPublicKeyImportOptsKeyImporter);
          ("*bccsp.X509PublicKeyImportOpts", x509PublicKeyImportOptsKeyImporter self)]
  |}.

(** A file of [n] zero bytes. *)
Definition blob (n : Z) : File := Regular mode_0600 (repeat x00 (Z.to_nat n)).

(** The record of a private SM2 key under the empty password. *)
Definition sm2_private_file (x y d : Z) : File :=
  Regular mode_0600
    (pem_of (private_to_pem (any_sm2_PrivateKey (sm2_private x y d)) (Some []))).

Definition sm2_public_file (x y : Z) : File :=
  Regular mode_0600
    (pem_of (public_to_pem (any_sm2_PublicKey {| sm2_X := x; sm2_Y := y |})
               (Some []))).

End Demo.

(** ** Vocabulary of the statements *)

Definition err_empty_path : error :=
  errors_New "an invalid KeyStore path provided. Path cannot be an empty string".

Definition err_already_initialized : error :=
  errors_New "keystore is already initialized".

Definition err_read_only : error := errors_New "read only KeyStore".

Definition err_invalid_ski : error :=
  errors_New "invalid SKI. Cannot be of zero length".

(** A mode grants nothing to group and others. *)
Definition owner_only (perm : Z) : Prop := Z.land perm (7 * 8 + 7) = 0%Z.

Section Vocabulary.
Context `{Collaborators}.

(** The key for which a decoded object stands in the fallback scan. *)
Definition as_private_key (obj : any) : option Key :=
  match obj with
  | any_ecdsa_PrivateKey kk => Some (ecdsaPrivateKey kk)
  | any_sm2_PrivateKey kk => Some (sm2PrivateKey kk)
  | _ => None
  end.

(** The files the scan opens: not a directory, at most 64 KiB. *)
Definition scanned (f : FileInfo) : bool :=
  negb (IsDir f) && (Size f <=? 65536)%Z.

(** In the world [w] the file [f] of the store is one the scan opens,
    and it decodes to the private key [k], whose identifier is [ski]. *)
Definition holds_key (ks : fileBasedKeyStore) (ski : byteSlice) (w : World)
    (f : FileInfo) (k : Key) : Prop :=
  scanned f = true
  /\ exists raw obj,
       read_file w (filepath_Join (path ks) (Name f)) = Ok raw
       /\ PEMtoPrivateKey raw (pwd ks) = Ok obj
       /\ as_private_key obj = Some k
       /\ content (SKI k) = content ski.

Definition err_not_found (ks : fileBasedKeyStore) (ski : byteSlice) : error :=
  errorString
    ("key with SKI " ++ hex_EncodeToString ski ++ " not found in " ++ path ks).

(** The calls of [ReadFile] of a scan over [files], latest first. *)
Definition reads (ks : fileBasedKeyStore) (files : list FileInfo)
  : list Syscall :=
  rev (map (fun f => SysReadFile (filepath_Join (path ks) (Name f)))
         (filter (fun f => scanned f = true) files)).

(** What a scan over [files] that starts in [w] has returned and left:
    the first file that holds a key of the identifier, having read the
    scanned files up to it, or the not-found error, having read them
    all. *)
Definition scan_result (ks : fileBasedKeyStore) (ski : byteSlice)
    (files : list FileInfo) (w : World) (before : list Syscall)
    (r : result Key) (w' : World) : Prop :=
  nodes w' = nodes w
  /\ match r with
     | Ok k =>
         exists pre f post,
           files = (pre ++ f :: post)%list
           /\ holds_key ks ski w f k
           /\ (forall g k', g ∈ pre -> ~ holds_key ks ski w g k')
           /\ trace w' = (reads ks (pre ++ [f]) ++ before)%list
     | Fail e =>
         e = err_not_found ks ski
         /\ (forall g k', g ∈ files -> ~ holds_key ks ski w g k')
         /\ trace w' = (reads ks files ++ before)%list
     end.

(** The codec restores under the password [password] what it has
    written for the key [k]; for an AES key, whose bytes come back
    without the exportable flag, the identifier is the one of [k].
    The file holds the contents of the record, hence [Some (content
    pem)]. *)
Definition codec_restores (password : byteSlice) (k : Key) : Prop :=
  match k with
  | ecdsaPrivateKey kk =>
      exists pem,
        PrivateKeyToPEM (any_ecdsa_PrivateKey kk) password = Ok pem
        /\ PEMtoPrivateKey (Some (content pem)) password
           = Ok (any_ecdsa_PrivateKey kk)
  | sm2PrivateKey kk =>
      exists pem,
        PrivateKeyToPEM (any_sm2_PrivateKey kk) password = Ok pem
        /\ PEMtoPrivateKey (Some (content pem)) password
           = Ok (any_sm2_PrivateKey kk)
  | ecdsaPublicKey kk =>
      exists pem,
        PublicKeyToPEM (any_ecdsa_PublicKey kk) password = Ok pem
        /\ PEMtoPublicKey (Some (content pem)) password
           = Ok (any_ecdsa_PublicKey kk)
  | sm2PublicKey kk =>
      exists pem,
        PublicKeyToPEM (any_sm2_PublicKey kk) password = Ok pem
        /\ PEMtoPublicKey (Some (content pem)) password
           = Ok (any_sm2_PublicKey kk)
  | aesPrivateKey raw _ =>
      exists pem key,
        AEStoEncryptedPEM raw password = Ok pem
        /\ PEMtoAES (Some (content pem)) password = Ok key
        /\ content (SKI (aesPrivateKey key false)) = content (SKI k)
  | _ => False
  end.

(** The answer of [getSuffix] once a file name has the prefix. *)
Definition suffix_of_name (name : string) : string :=
  if strings_HasSuffix name "sk" then "sk"
  else if strings_HasSuffix name "pk" then "pk"
  else if strings_HasSuffix name "key" then "key"
  else "".

(** The record that [StoreKey] asks of the codec for the key [k], the
    suffix of the file it writes and the words of its error; none for a
    key of a type it does not know. *)
Definition record_of (password : byteSlice) (k : Key)
  : option (result byteSlice) :=
  match k with
  | ecdsaPrivateKey kk => Some (PrivateKeyToPEM (any_ecdsa_PrivateKey kk) password)
  | sm2PrivateKey kk => Some (PrivateKeyToPEM (any_sm2_PrivateKey kk) password)
  | ecdsaPublicKey kk => Some (PublicKeyToPEM (any_ecdsa_PublicKey kk) password)
  | sm2PublicKey kk => Some (PublicKeyToPEM (any_sm2_PublicKey kk) password)
  | aesPrivateKey raw _ => Some (AEStoEncryptedPEM raw password)
  | sm4PrivateKey raw _ => Some (SM4EncryptPEMBlock "SM4 PRIVATE KEY" raw password)
  | _ => None
  end.

Definition suffix_of_key (k : Key) : string :=
  match k with
  | ecdsaPrivateKey _ | sm2PrivateKey _ => "sk"
  | ecdsaPublicKey _ | sm2PublicKey _ => "pk"
  | aesPrivateKey _ _ => "key"
  | sm4PrivateKey _ _ => "sm4key"
  | _ => ""
  end.

Definition label_of_key (k : Key) : string :=
  match k with
  | ecdsaPrivateKey _ => "failed storing ECDSA private key"
  | sm2PrivateKey _ => "failed storing SM2 private key"
  | ecdsaPublicKey _ => "failed storing ECDSA public key"
  | sm2PublicKey _ => "failed storing SM2 public key"
  | aesPrivateKey _ _ => "failed storing AES key"
  | sm4PrivateKey _ _ => "failed storing SM4 key"
  | _ => ""
  end.

(** The name of the file of the key [k]. *)
Definition file_name (k : Key) : string :=
  hex_EncodeToString (SKI k) ++ "_" ++ suffix_of_key k.

(** What [GetKey] makes of the contents [data] of the file that the
    suffix [sfx] names, for the identifier [ski]. *)
Definition decoded (ks : fileBasedKeyStore) (ski : byteSlice) (sfx : string)
    (data : list byte) : result Key :=
  if String.eqb sfx "key" then
    match PEMtoAES (Some data) (pwd ks) with
    | Fail err =>
        Fail (errorString
                ("failed loading key [" ++ hex_EncodeToString ski ++ "] ["
                 ++ Error err ++ "]"))
    | Ok key => Ok (aesPrivateKey key false)
    end
  else if String.eqb sfx "sk" then
    match PEMtoPrivateKey (Some data) (pwd ks) with
    | Fail err =>
        Fail (errorString
                ("failed loading secret key [" ++ hex_EncodeToString ski
                 ++ "] [" ++ Error err ++ "]"))
    | Ok (any_ecdsa_PrivateKey k) => Ok (ecdsaPrivateKey k)
    | Ok (any_sm2_PrivateKey k) => Ok (sm2PrivateKey k)
    | Ok _ => Fail (errors_New "secret key type not recognized")
    end
  else
    match PEMtoPublicKey (Some data) (pwd ks) with
    | Fail err =>
        Fail (errorString
                ("failed loading public key [" ++ hex_EncodeToString ski
                 ++ "] [" ++ Error err ++ "]"))
    | Ok (any_ecdsa_PublicKey k) => Ok (ecdsaPublicKey k)
    | Ok (any_sm2_PublicKey k) => Ok (sm2PublicKey k)
    | Ok _ => Fail (errors_New "public key type not recognized")
    end.

End Vocabulary.

(** The calls that only read the disk. *)
Definition is_read (c : Syscall) : Prop :=
  match c with
  | SysReadDir _ | SysReadFile _ => True
  | _ => False
  end.

(** The world [w'] differs from [w] by calls that only read. *)
Definition only_reads (w w' : World) : Prop :=
  nodes w' = nodes w /\ umask w' = umask w /\ faults w' = faults w
  /\ exists calls, trace w' = (calls ++ trace w)%list /\ Forall is_read calls.

(** The entry [name] of the directory at [dir], if there is one. *)
Definition entry (w : World) (dir name : string) : option File :=
  match nodes w !! dir with
  | Some (Directory _ entries) => entries !! name
  | _ => None
  end.

(** Among the entries, only the file [name] starts with [alias], and it
    is no directory. *)
Definition sole_prefix (entries : gmap string File) (alias name : string)
  : Prop :=
  forall n file,
    entries !! n = Some file -> strings_HasPrefix n alias = true ->
    n = name /\ exists perm data, file = Regular perm data.

Definition known_suffixes : list string := ["key"; "sm4key"; "sk"; "pk"].

(** A file name: not empty, without a separator, neither [.] nor
    [..]. *)
Definition file_name_like (s : string) : Prop :=
  split_slash s = [s] /\ s <> "" /\ s <> "." /\ s <> "..".

(** What [filepath.Join] puts before a file name; it depends on the
    directory alone. *)
Definition Join_prefix (dir : string) : string :=
  if String.eqb dir "" then ""
  else
    let rooted := strings_HasPrefix dir "/" in
    let out := rev (fold_left (clean_element rooted) (split_slash dir) []) in
    (if rooted then "/" else "")
    ++ match out with
       | [] => ""
       | _ => join_slash out ++ "/"
       end.

(** The key types of package [gm], which the importers build. *)
Definition of_package_gm (k : Key) : Prop :=
  match k with
  | gm_sm2PrivateKey _ | gm_sm2PublicKey _ | gm_sm4PrivateKey _ _ => True
  | _ => False
  end.


(** ** The life cycle of the store: [Init] *)

Lemma nodes_logged c w : nodes (logged c w) = nodes w.
Proof. reflexivity. Qed.

Lemma faults_logged c w : faults (logged c w) = faults w.
Proof. reflexivity. Qed.

Lemma umask_logged c w : umask (logged c w) = umask w.
Proof. reflexivity. Qed.

Create Rewrite HintDb world.
#[global] Hint Rewrite nodes_logged faults_logged umask_logged : world.

Lemma listing_nil (entries : gmap string File) :
  listing entries = [] -> entries = ∅.
Proof.
  unfold listing. intros E.
  pose proof (merge_sort_Permutation byName (file_info <$> map_to_list entries)) as P.
  rewrite E in P. apply Permutation_nil_l in P. symmetry in P.
  apply fmap_nil_inv in P. by apply map_to_list_empty_iff.
Qed.

Lemma Init_empty_path ks pwd0 ro w :
  Init ks pwd0 "" ro w = (Some err_empty_path, ks, w).
Proof. reflexivity. Qed.

Lemma Init_open ks pwd0 path0 ro w :
  isOpen ks = true ->
  Init ks pwd0 path0 ro w
  = (Some (if (String.length path0 =? 0)%nat then err_empty_path
           else err_already_initialized), ks, w).
Proof.
  intros O. unfold Init. destruct (String.length path0 =? 0)%nat; [done|].
  by rewrite O.
Qed.

(** What [Init] does to a store that is not open, whatever the world:
    it keeps the new path, password and flag, and the store is open
    afterwards exactly when no error is returned. *)
Lemma Init_closed ks pwd0 path0 ro w :
  isOpen ks = false -> (String.length path0 =? 0)%nat = false ->
  let r := Init ks pwd0 path0 ro w in
  snd (fst r)
  = {| path := path0; readOnly := ro;
       isOpen := bool_decide (fst (fst r) = None); pwd := clone pwd0 |}.
Proof.
  intros O P. unfold Init. rewrite P, O.
  unfold bind, dirExists, dirEmpty, createKeyStore, openKeyStore, bind,
    os_Stat, os_Open, File_Readdir, os_MkdirAll, ret; cbn.
  destruct (stat w path0) as [e|]; [destruct (os_IsNotExist e)|].
  - destruct (faults _ _); [reflexivity|].
    destruct (nodes _ !! _) as [[]|]; reflexivity.
  - reflexivity.
  - destruct (open _ path0) as [f|e]; [|reflexivity].
    destruct (readdir _ f 1) as [l [[]|]]; cbn; try reflexivity.
    destruct (faults _ _); [reflexivity|].
    destruct (nodes _ !! _) as [[]|]; reflexivity.
Qed.

Lemma length_nonempty (s : string) : s <> "" -> (String.length s =? 0)%nat = false.
Proof. by destruct s. Qed.

(** [Init] writes to the disk only where nothing is at the path. *)
Lemma Init_frame ks pwd0 path0 ro w n :
  nodes w !! path0 = Some n ->
  nodes (snd (Init ks pwd0 path0 ro w)) = nodes w.
Proof.
  intros N. unfold Init.
  destruct (String.length path0 =? 0)%nat; [done|].
  destruct (isOpen ks); [done|].
  unfold bind, dirExists, dirEmpty, createKeyStore, openKeyStore, bind,
    os_Stat, os_Open, File_Readdir, os_MkdirAll, ret; cbn.
  destruct (stat w path0) as [e|]; [destruct (os_IsNotExist e)|].
  - destruct (faults _ _); [done|].
    autorewrite with world. rewrite N. by destruct n.
  - done.
  - destruct (open _ path0) as [f|e]; [|done].
    destruct (readdir _ f 1) as [l [[]|]]; cbn; try done.
    destruct (faults _ _); [done|].
    autorewrite with world. rewrite N. by destruct n.
Qed.

(** C6, as amended.  A call of [Init] that returns no error was made on
    a store that was not open and leaves it open; a call that returns
    an error leaves the open flag as it was; and on an open store every
    call fails and changes neither the store nor the world: with the
    invalid-path error when the path is empty, with the
    already-initialized error otherwise. *)
Theorem Init_transitions ks pwd0 path0 ro w :
  let r := Init ks pwd0 path0 ro w in
  (fst (fst r) = None -> isOpen ks = false /\ isOpen (snd (fst r)) = true)
  /\ (fst (fst r) <> None -> isOpen (snd (fst r)) = isOpen ks)
  /\ (isOpen ks = true ->
      r = (Some (if (String.length path0 =? 0)%nat then err_empty_path
                 else err_already_initialized), ks, w)).
Proof.
  intros r. subst r.
  destruct (isOpen ks) eqn:O.
  - rewrite (Init_open _ _ _ _ _ O); cbn. repeat split; try done.
  - destruct (String.length path0 =? 0)%nat eqn:P.
    + unfold Init; rewrite P; cbn. by rewrite O.
    + pose proof (Init_closed ks pwd0 path0 ro w O P) as E; cbn in E.
      rewrite E; cbn. repeat split; try done.
      * by rewrite bool_decide_eq_true_2.
      * intros N. by rewrite bool_decide_eq_false_2.
Qed.

Lemma Init_transitions_witness :
  let ks := Demo.store "/ks" false (Some []) in
  let w := Demo.world {["/ks" := Directory 493 ∅]} in
  Init ks None "/other" true w = (Some err_already_initialized, ks, w)
  /\ isOpen (snd (fst (Init new_fileBasedKeyStore None "/ks" false w))) = true.
Proof.
  split.
  - apply (proj2 (proj2 (Init_transitions _ None "/other" true _))).
    reflexivity.
  - apply (proj1 (Init_transitions new_fileBasedKeyStore None "/ks" false _)).
    reflexivity.
Defined.

(** C6 as stated fails: after a first [Init] that succeeded, a second
    one with the empty path fails with the invalid-path error, not with
    the already-initialized one. *)
Lemma Init_twice_empty_path :
  let first := Init new_fileBasedKeyStore None "/ks" false (Demo.world ∅) in
  let second := Init (snd (fst first)) None "" false (snd first) in
  fst (fst first) = None
  /\ isOpen (snd (fst first)) = true
  /\ fst (fst second) = Some err_empty_path
  /\ fst (fst second) <> Some err_already_initialized.
Proof. repeat split. discriminate. Qed.

(** C7.  [Init] with a non-empty path that names a directory holding at
    least one entry leaves every node of the disk as it was, whatever
    errors the system injects and whether or not the store was open;
    when the system injects none the store is open afterwards, and a
    store that was not open is opened by exactly the calls [Stat],
    [Open] and [Readdir(1)].  [Init] with the empty path fails. *)
Theorem Init_existing_directory ks pwd0 path0 ro w dperm entries :
  path0 <> "" ->
  nodes w !! path0 = Some (Directory dperm entries) ->
  entries <> ∅ ->
  let r := Init ks pwd0 path0 ro w in
  nodes (snd r) = nodes w
  /\ ((forall c, faults w c = None) ->
      isOpen (snd (fst r)) = true
      /\ (isOpen ks = false ->
          r = (None,
               {| path := path0; readOnly := ro; isOpen := true;
                  pwd := clone pwd0 |},
               logged (SysReaddir path0 1)
                 (logged (SysOpen path0) (logged (SysStat path0) w)))))
  /\ Init ks pwd0 "" ro w = (Some err_empty_path, ks, w).
Proof.
  intros P N E r. subst r. split; [by eapply Init_frame|].
  split; [|reflexivity]. intros F.
  assert (isOpen ks = false ->
          Init ks pwd0 path0 ro w
          = (None,
             {| path := path0; readOnly := ro; isOpen := true;
                pwd := clone pwd0 |},
             logged (SysReaddir path0 1)
               (logged (SysOpen path0) (logged (SysStat path0) w)))) as R.
  { intros O. unfold Init. rewrite (length_nonempty _ P), O.
    unfold bind, dirExists, dirEmpty, openKeyStore, bind,
      os_Stat, os_Open, File_Readdir, ret, stat, open, readdir; cbn.
    rewrite F, N; cbn. autorewrite with world. rewrite F, N; cbn.
    autorewrite with world. rewrite F, N.
    destruct (listing entries) as [|f l] eqn:L;
      [by apply listing_nil in L|].
    reflexivity. }
  split; [|done].
  destruct (isOpen ks) eqn:O.
  - by rewrite (Init_open _ _ _ _ _ O).
  - by rewrite R.
Qed.

Lemma Init_existing_directory_witness :
  let w := Demo.world {["/ks" := Directory 493 {["ab_sk" := Regular 384 []]}]} in
  let r := Init new_fileBasedKeyStore None "/ks" false w in
  nodes (snd r) = nodes w /\ isOpen (snd (fst r)) = true.
Proof.
  intros w r.
  destruct (Init_existing_directory new_fileBasedKeyStore None "/ks" false w
              493 {["ab_sk" := Regular 384 []]}) as (F & O & _).
  - discriminate.
  - reflexivity.
  - apply insert_non_empty.
  - split; [exact F|]. apply O. reflexivity.
Defined.

(** C9, as amended.  [Init] on a store that is not open, with a
    non-empty path at which nothing exists, when the system injects no
    error: it returns no error, opens the store, and creates by one
    [MkdirAll] an empty directory whose mode is [0755] less the bits of
    the umask; with no umask that mode lets group and others read and
    search the directory. *)
Theorem Init_creates_directory ks pwd0 path0 ro w :
  path0 <> "" ->
  isOpen ks = false ->
  nodes w !! path0 = None ->
  (forall c, faults w c = None) ->
  Init ks pwd0 path0 ro w
  = (None,
     {| path := path0; readOnly := ro; isOpen := true; pwd := clone pwd0 |},
     set_node path0 (Directory (Z.ldiff mode_0755 (umask w)) ∅)
       (logged (SysMkdirAll path0 mode_0755) (logged (SysStat path0) w)))
  /\ Z.land mode_0755 (7 * 8 + 7) = (5 * 8 + 5)%Z.
Proof.
  intros P O N F. split; [|reflexivity].
  unfold Init. rewrite (length_nonempty _ P), O.
  unfold bind, dirExists, createKeyStore, openKeyStore, bind,
    os_Stat, os_MkdirAll, ret, stat; cbn.
  rewrite F, N; cbn. autorewrite with world. by rewrite F, N.
Qed.

Lemma Init_creates_directory_witness :
  nodes (snd (Init new_fileBasedKeyStore None "/ks" false (Demo.world ∅))) !! "/ks"
  = Some (Directory (Z.ldiff mode_0755 18) ∅).
Proof.
  rewrite (proj1 (Init_creates_directory new_fileBasedKeyStore None "/ks" false
                    (Demo.world ∅) ltac:(discriminate) eq_refl eq_refl
                    (fun _ => eq_refl))).
  reflexivity.
Defined.

(** C9 as stated fails: under the umask [022] the directory that [Init]
    creates has the mode [0755], which grants read and search to group
    and others. *)
Lemma Init_directory_not_owner_only :
  let r := Init new_fileBasedKeyStore None "/ks" false (Demo.world ∅) in
  fst (fst r) = None
  /\ nodes (snd r) !! "/ks" = Some (Directory mode_0755 ∅)
  /\ ~ owner_only mode_0755.
Proof. repeat split. discriminate. Qed.

(** ** [StoreKey] on a read-only store, [GetKey] on an empty identifier *)

Section StoreFacts.
Context `{Collaborators}.

Lemma StoreKey_readOnly_flag ks k w :
  readOnly ks = true -> StoreKey ks k w = (Some err_read_only, w).
Proof. intros R. unfold StoreKey. by rewrite R. Qed.

Lemma Init_sets_readOnly ks0 pwd0 path0 ro w0 ks w1 :
  Init ks0 pwd0 path0 ro w0 = (None, ks, w1) -> readOnly ks = ro.
Proof.
  intros E.
  destruct (isOpen ks0) eqn:O.
  { rewrite (Init_open _ _ _ _ _ O) in E. by destruct (_ =? _)%nat. }
  destruct (String.length path0 =? 0)%nat eqn:P.
  { unfold Init in E. by rewrite P in E. }
  pose proof (Init_closed ks0 pwd0 path0 ro w0 O P) as C; cbn in C.
  rewrite E in C; cbn in C. by rewrite C.
Qed.

(** C3.  On a store that [Init] has initialised with the read-only flag
    set, [StoreKey] fails with the read-only error for every argument:
    the nil key, a key of any of the six stored types, a key of a type
    the store does not know; it does so in any world and leaves the
    world as it is, so that nothing is encoded or written before the
    check. *)
Theorem StoreKey_read_only ks0 pwd0 path0 w0 ks w1 (k : option Key) w :
  Init ks0 pwd0 path0 true w0 = (None, ks, w1) ->
  StoreKey ks k w = (Some err_read_only, w).
Proof.
  intros E. apply StoreKey_readOnly_flag. by eapply Init_sets_readOnly.
Qed.

(** C10.  [GetKey] on an identifier of length zero, nil or empty, fails
    with the invalid-SKI error and leaves the world, its trace
    included, as it is: the directory is not listed and no file is
    read. *)
Theorem GetKey_zero_length ks ski w :
  len ski = 0 -> GetKey ks ski w = (Fail err_invalid_ski, w).
Proof. intros L. unfold GetKey. by rewrite L. Qed.

End StoreFacts.

Lemma StoreKey_read_only_witness :
  let w := Demo.world {["/ks" := Directory 493 ∅]} in
  StoreKey (H := Demo.collaborators) (Demo.store "/ks" true (Some []))
    (Some (sm4PrivateKey (Some Demo.sixteen) false)) w
  = (Some err_read_only, w).
Proof.
  intros w.
  pose (r := Init new_fileBasedKeyStore None "/ks" true (Demo.world ∅)).
  apply (@StoreKey_read_only Demo.collaborators new_fileBasedKeyStore None
           "/ks" (Demo.world ∅) (snd (fst r)) (snd r)).
  reflexivity.
Defined.

Lemma GetKey_zero_length_witness :
  let w := Demo.world {["/ks" := Directory 493 ∅]} in
  GetKey (H := Demo.collaborators) (Demo.store "/ks" false (Some [])) (Some []) w
  = (Fail err_invalid_ski, w).
Proof.
  intros w. apply (@GetKey_zero_length Demo.collaborators). reflexivity.
Defined.

(** ** The importers *)

Section ImporterFacts.
Context `{Collaborators}.

(** C2.  The SM4 importer fails on every raw material that is not a
    byte slice, on the nil slice and on a slice of any length other
    than 16, each with its own error; on a slice of length 16 it
    returns the SM4 key, of the importers' package, that holds this
    very slice, not exportable. *)
Theorem sm4_KeyImport_length h raw opts :
  let r := KeyImport h sm4ImportKeyOptsKeyImporter raw opts in
  ((forall b, raw <> any_bytes b) ->
   r = Returns (Fail (errors_New "invalid raw material, expected byte array")))
  /\ (raw = any_bytes None ->
      r = Returns (Fail (errors_New "invalid raw material, it must not be nil")))
  /\ (forall l, raw = any_bytes (Some l) -> List.length l <> 16 ->
      r = Returns (Fail (errorString
            ("invalid Key Length [" ++ pretty (List.length l)
             ++ "], must be 16 bytes"))))
  /\ (forall l, raw = any_bytes (Some l) -> List.length l = 16 ->
      r = Returns (Ok (gm_sm4PrivateKey (Some l) false))).
Proof.
  intros r; subst r. repeat split.
  - intros N. destruct raw; try done. by destruct (N b).
  - by intros ->.
  - intros l -> L; cbn. unfold len; cbn.
    by destruct (Nat.eqb_spec (List.length l) 16).
  - intros l -> L; cbn. unfold len; cbn. by rewrite L.
Qed.

End ImporterFacts.

Lemma sm4_KeyImport_length_witness :
  KeyImport (H := Demo.collaborators) ∅ sm4ImportKeyOptsKeyImporter
    (any_bytes (Some Demo.sixteen)) (SM4ImportKeyOpts false)
  = Returns (Ok (gm_sm4PrivateKey (Some Demo.sixteen) false))
  /\ KeyImport (H := Demo.collaborators) ∅ sm4ImportKeyOptsKeyImporter
       (any_bytes (Some [x00; x01])) (SM4ImportKeyOpts false)
     = Returns (Fail (errorString "invalid Key Length [2], must be 16 bytes"))
  /\ KeyImport (H := Demo.collaborators) ∅ sm4ImportKeyOptsKeyImporter
       any_nil (SM4ImportKeyOpts false)
     = Returns (Fail (errors_New "invalid raw material, expected byte array")).
Proof.
  split; [|split].
  - apply (proj2 (proj2 (proj2 (@sm4_KeyImport_length Demo.collaborators ∅
             (any_bytes (Some Demo.sixteen)) (SM4ImportKeyOpts false))))
             Demo.sixteen); reflexivity.
  - apply (proj1 (proj2 (proj2 (@sm4_KeyImport_length Demo.collaborators ∅
             (any_bytes (Some [x00; x01])) (SM4ImportKeyOpts false))))
             [x00; x01]); [reflexivity | cbn; lia].
  - apply (proj1 (@sm4_KeyImport_length Demo.collaborators ∅ any_nil
             (SM4ImportKeyOpts false))); discriminate.
Defined.

Section CertificateFacts.
Context `{Collaborators}.


End CertificateFacts.



(** ** The fallback scan *)

Section ScanFacts.
Context `{Collaborators}.

Lemma as_private_key_cases obj k :
  as_private_key obj = Some k ->
  (exists kk, k = ecdsaPrivateKey kk) \/ (exists kk, k = sm2PrivateKey kk).
Proof. destruct obj; cbn; intros [= <-]; eauto. Qed.

Lemma reads_skip ks f files :
  scanned f = false -> reads ks (f :: files) = reads ks files.
Proof.
  intros S. unfold reads. rewrite filter_cons_False; [done|]. by rewrite S.
Qed.

Lemma reads_read ks f files :
  scanned f = true ->
  reads ks (f :: files)
  = (reads ks files ++ [SysReadFile (filepath_Join (path ks) (Name f))])%list.
Proof.
  intros S. unfold reads. by rewrite filter_cons_True.
Qed.

(** A file the loop passes over: the scan of the rest, started in [w1],
    is a scan of the whole list started in [w]. *)
Lemma scan_result_skip ks ski f files w w1 before r w' :
  nodes w1 = nodes w -> faults w1 = faults w ->
  (forall k, ~ holds_key ks ski w f k) ->
  trace w1 = (reads ks [f] ++ before)%list ->
  scan_result ks ski files w1 (trace w1) r w' ->
  scan_result ks ski (f :: files) w before r w'.
Proof.
  intros N F NH T [Nw R].
  assert (forall g k, holds_key ks ski w1 g k <-> holds_key ks ski w g k) as HK.
  { intros g k. unfold holds_key, read_file. by rewrite N, F. }
  assert (forall l, (reads ks l ++ trace w1)%list
                    = (reads ks (f :: l) ++ before)%list) as TR.
  { intros l. rewrite T. unfold reads. cbn [filter].
    destruct (scanned f) eqn:S.
    - rewrite !filter_cons_True by done. cbn.
      by rewrite <- !app_assoc.
    - by rewrite !filter_cons_False by (by rewrite S). }
  split; [congruence|].
  destruct r as [k|e].
  - destruct R as (pre & g & post & -> & HG & FIRST & TRACE).
    exists (f :: pre), g, post. split; [done|].
    split; [by apply HK|]. split.
    + intros g' k' [->|IN]%elem_of_cons; [apply NH|].
      intros HH. apply (FIRST g' k' IN). by apply HK.
    + rewrite TRACE. apply TR.
  - destruct R as (-> & NONE & TRACE). split; [done|]. split.
    + intros g k' [->|IN]%elem_of_cons; [apply NH|].
      intros HH. apply (NONE g k' IN). by apply HK.
    + rewrite TRACE. apply TR.
Qed.

Lemma searchKeystoreForSKI_loop_spec ks ski files w :
  scan_result ks ski files w (trace w)
    (fst (searchKeystoreForSKI_loop ks ski files w))
    (snd (searchKeystoreForSKI_loop ks ski files w)).
Proof.
  revert w. induction files as [|f files IH]; intros w.
  { cbn. split; [done|]. repeat split. intros g k' IN. by apply elem_of_nil in IN. }
  cbn [searchKeystoreForSKI_loop].
  assert (scanned f = false ->
          scan_result ks ski (f :: files) w (trace w)
            (fst (searchKeystoreForSKI_loop ks ski files w))
            (snd (searchKeystoreForSKI_loop ks ski files w))) as SKIP.
  { intros S. apply (scan_result_skip ks ski f files w w); try done.
    - intros k [S' _]. congruence.
    - by rewrite reads_skip. }
  destruct (IsDir f) eqn:D.
  { apply SKIP. unfold scanned. by rewrite D. }
  destruct (Size f >? Z.shiftl 1 16)%Z eqn:Z.
  { apply SKIP. unfold scanned. rewrite D; cbn.
    apply Z.leb_gt. apply Z.gtb_lt in Z. exact Z. }
  assert (scanned f = true) as S.
  { unfold scanned. rewrite D; cbn. apply Z.leb_le.
    rewrite Z.gtb_ltb in Z. apply Z.ltb_ge in Z. exact Z. }
  unfold bind, ioutil_ReadFile.
  set (w1 := logged (SysReadFile (filepath_Join (path ks) (Name f))) w).
  assert ((forall k, ~ holds_key ks ski w f k) ->
          scan_result ks ski (f :: files) w (trace w)
            (fst (searchKeystoreForSKI_loop ks ski files w1))
            (snd (searchKeystoreForSKI_loop ks ski files w1))) as NEXT.
  { intros NH. apply (scan_result_skip ks ski f files w w1); try done.
    by rewrite reads_read. }
  destruct (read_file w _) as [raw|e] eqn:R.
  2:{ apply NEXT. intros k (_ & raw & obj & R' & _). congruence. }
  destruct (PEMtoPrivateKey raw (pwd ks)) as [obj|e] eqn:P.
  2:{ apply NEXT. intros k (_ & raw' & obj & R' & P' & _). congruence. }
  assert (forall k, as_private_key obj = Some k ->
          scan_result ks ski (f :: files) w (trace w)
            (fst ((if negb (bytes_Equal (SKI k) ski)
                   then searchKeystoreForSKI_loop ks ski files
                   else ret (Ok k)) w1))
            (snd ((if negb (bytes_Equal (SKI k) ski)
                   then searchKeystoreForSKI_loop ks ski files
                   else ret (Ok k)) w1))) as FOUND.
  { intros k AK. unfold bytes_Equal. case_bool_decide as E; cbn.
    - split; [done|]. exists [], f, files. split; [done|]. split.
      + split; [done|]. by exists raw, obj.
      + split; [intros g k' IN; by apply elem_of_nil in IN|].
        change ([] ++ [f])%list with [f]. by rewrite reads_read.
    - apply NEXT. intros k' (_ & raw' & obj' & R' & P' & AK' & E').
      congruence. }
  destruct obj;
    try (apply NEXT; intros k0 (_ & raw' & obj' & R' & P' & AK' & _);
         rewrite R in R'; injection R' as <-; rewrite P in P';
         injection P' as <-; discriminate AK').
  - exact (FOUND (ecdsaPrivateKey k) eq_refl).
  - exact (FOUND (sm2PrivateKey k) eq_refl).
Qed.

(** C4.  Let the identifier be non-empty and let the suffix that
    [getSuffix] derives from the listing of the directory be none of
    the four known ones.  Then [GetKey] lists the directory a second
    time and scans it in that order; the scan leaves the disk
    unchanged and calls [ReadFile] exactly on the entries that are not
    directories and not larger than 64 KiB.  It returns the key of the
    first such file that can be read, decodes under the store's
    password to an ECDSA or SM2 private key and has the requested
    identifier; the key returned is of one of these two private types,
    never a public or a symmetric one, and no file after it is read.  When no file qualifies, all such files have been
    read and the error is the not-found error that carries the
    identifier in hexadecimal and the path of the store. *)
Theorem GetKey_fallback_scan ks ski w :
  len ski <> 0 ->
  let files := fst (read_dir w (path ks)) in
  getSuffix_loop (hex_EncodeToString ski) files ∉ known_suffixes ->
  let r := GetKey ks ski w in
  scan_result ks ski files w
    (SysReadDir (path ks) :: SysReadDir (path ks) :: trace w) (fst r) (snd r)
  /\ forall k, fst r = Ok k ->
       (exists kk, k = ecdsaPrivateKey kk) \/ (exists kk, k = sm2PrivateKey kk).
Proof.
  intros L files U r.
  assert (r = searchKeystoreForSKI_loop ks ski files
                (logged (SysReadDir (path ks)) (logged (SysReadDir (path ks)) w)))
    as ->.
  { subst r. unfold GetKey. apply Nat.eqb_neq in L. rewrite L.
    unfold bind at 1. unfold getSuffix, bind, ioutil_ReadDir, ret.
    fold files. unfold known_suffixes in U.
    repeat match goal with
    | |- context [String.eqb ?a ?b] =>
        destruct (String.eqb_spec a b) as [E|_];
        [exfalso; apply U; rewrite E; set_solver|]
    end.
    reflexivity. }
  pose proof (searchKeystoreForSKI_loop_spec ks ski files
                (logged (SysReadDir (path ks)) (logged (SysReadDir (path ks)) w)))
    as S.
  split.
  - destruct S as [N R]. split; [exact N|].
    destruct (fst (searchKeystoreForSKI_loop _ _ _ _)); exact R.
  - intros k E. rewrite E in S. destruct S as [_ (pre & f & post & _ & HK & _)].
    destruct HK as (_ & raw & obj & _ & _ & AK & _).
    by eapply as_private_key_cases.
Qed.

End ScanFacts.

Lemma GetKey_fallback_scan_witness :
  let w := Demo.world
             {["/ks" := Directory 493
                 {["big" := Demo.blob 65537;
                   "dropped.pem" := Demo.sm2_private_file 171 5 9]}]} in
  let ks := Demo.store "/ks" false (Some []) in
  let r := GetKey (H := Demo.collaborators) ks (Some [xab]) w in
  scan_result (H := Demo.collaborators) ks (Some [xab])
    (fst (read_dir w "/ks")) w [SysReadDir "/ks"; SysReadDir "/ks"]
    (fst r) (snd r).
Proof.
  intros w ks r.
  apply (@GetKey_fallback_scan Demo.collaborators ks (Some [xab]) w).
  - discriminate.
  - vm_compute. intros IN.
    repeat (apply elem_of_cons in IN as [IN|IN]; [discriminate IN|]).
    by apply elem_of_nil in IN.
Defined.

(** The scenario of the specification: a file above the ceiling and a
    valid private key below it, neither named by the convention.  The
    key is found and the large file is never read. *)
Lemma fallback_scan_skips_large_file :
  let w := Demo.world
             {["/ks" := Directory 493
                 {["big" := Demo.blob 65537;
                   "dropped.pem" := Demo.sm2_private_file 171 5 9]}]} in
  let r := GetKey (H := Demo.collaborators) (Demo.store "/ks" false (Some []))
             (Some [xab]) w in
  fst r = Ok (sm2PrivateKey (Demo.sm2_private 171 5 9))
  /\ trace (snd r)
     = [SysReadFile (filepath_Join "/ks" "dropped.pem");
        SysReadDir "/ks"; SysReadDir "/ks"].
Proof. vm_compute. done. Qed.

(** ** Suffix lookup *)

Lemma append_cons c (a b : string) : String c a ++ b = String c (a ++ b).
Proof. reflexivity. Qed.

Lemma length_append (a b : string) :
  String.length (a ++ b) = String.length a + String.length b.
Proof.
  induction a as [|c a IH]; [done|].
  rewrite append_cons. cbn. by rewrite IH.
Qed.

Lemma substring_append_skip (a b : string) n m :
  substring (String.length a + n) m (a ++ b) = substring n m b.
Proof.
  induction a as [|c a IH]; [done|]. rewrite append_cons. exact IH.
Qed.

Lemma substring_append_take (a b : string) :
  substring 0 (String.length a) (a ++ b) = a.
Proof.
  induction a as [|c a IH]; [by destruct b|].
  rewrite append_cons. cbn. by rewrite IH.
Qed.

Lemma HasPrefix_append (a b : string) : strings_HasPrefix (a ++ b) a = true.
Proof.
  unfold strings_HasPrefix. rewrite substring_append_take, String.eqb_refl.
  rewrite length_append. rewrite andb_true_r. apply Nat.leb_le. lia.
Qed.

Lemma HasSuffix_append (a b s : string) :
  String.length s <= String.length b ->
  strings_HasSuffix (a ++ b) s = strings_HasSuffix b s.
Proof.
  intros L. unfold strings_HasSuffix. rewrite length_append.
  replace (String.length a + String.length b - String.length s)
    with (String.length a + (String.length b - String.length s)) by lia.
  rewrite substring_append_skip.
  replace (String.length s <=? String.length a + String.length b)%nat
    with true by (symmetry; apply Nat.leb_le; lia).
  replace (String.length s <=? String.length b)%nat
    with true by (symmetry; apply Nat.leb_le; lia).
  done.
Qed.

Lemma listing_singleton name file :
  listing {[name := file]} = [file_info (name, file)].
Proof. unfold listing. by rewrite map_to_list_singleton. Qed.

(** The suffix lookup compares by prefix of the whole name: a first
    file named after an identifier that extends [alias] gives its
    suffix to [alias]. *)
Lemma getSuffix_loop_longer_identifier alias ext files dir size :
  getSuffix_loop alias
    ({| Name := alias ++ (ext ++ "_sk"); IsDir := dir; Size := size |} :: files)
  = "sk".
Proof.
  cbn. rewrite HasPrefix_append.
  rewrite HasSuffix_append by (rewrite length_append; cbn; lia).
  by rewrite (HasSuffix_append ext "_sk" "sk") by (cbn; lia).
Qed.

(** A name with the suffix [sm4key] is taken for one with the suffix
    [key]; [getSuffix_loop] has no result [sm4key]. *)
Lemma getSuffix_loop_sm4key alias files dir size :
  getSuffix_loop alias
    ({| Name := alias ++ "_sm4key"; IsDir := dir; Size := size |} :: files)
  = "key".
Proof.
  cbn. rewrite HasPrefix_append.
  by rewrite !HasSuffix_append by (cbn; lia).
Qed.

Lemma getSuffix_loop_range alias files :
  getSuffix_loop alias files ∈ [""; "sk"; "pk"; "key"].
Proof.
  induction files as [|f files IH]; cbn; [by constructor|].
  repeat case_match; try exact IH; by repeat constructor.
Qed.

Section RoundTrip.
Context `{Collaborators}.

(** No call of [GetKey] returns an SM4 key: [getSuffix] never answers
    [sm4key], and the other branches build keys of other types. *)
Lemma GetKey_never_sm4 ks ski w raw exportable :
  fst (GetKey ks ski w) <> Ok (sm4PrivateKey raw exportable).
Proof.
  unfold GetKey. destruct (len ski =? 0)%nat; [done|].
  unfold bind at 1. unfold getSuffix, bind, ioutil_ReadDir, ret.
  set (files := fst (read_dir w (path ks))).
  set (w1 := logged (SysReadDir (path ks)) w).
  pose proof (getSuffix_loop_range (hex_EncodeToString ski) files) as R.
  repeat (apply elem_of_cons in R as [->|R]); [| | | |by apply elem_of_nil in R];
    cbn [String.eqb Ascii.eqb Bool.eqb andb].
  - unfold searchKeystoreForSKI, bind, ioutil_ReadDir.
    pose proof (searchKeystoreForSKI_loop_spec ks ski
                  (fst (read_dir w1 (path ks)))
                  (logged (SysReadDir (path ks)) w1)) as [_ S].
    intros E. rewrite E in S.
    destruct S as (pre & f & post & _ & (_ & r & obj & _ & _ & AK & _) & _).
    by destruct obj.
  - unfold bind, loadPrivateKey, bind.
    destruct (ioutil_ReadFile _ w1) as [[raw'|e] w2]; [|done].
    destruct (PEMtoPrivateKey raw' (pwd ks)) as [[]|e]; done.
  - unfold bind, loadPublicKey, bind.
    destruct (ioutil_ReadFile _ w1) as [[raw'|e] w2]; [|done].
    destruct (PEMtoPublicKey raw' (pwd ks)) as [[]|e]; done.
  - unfold bind, loadKey, bind.
    destruct (ioutil_ReadFile _ w1) as [[raw'|e] w2]; [|done].
    destruct (PEMtoAES raw' (pwd ks)) as [|e]; done.
Qed.

(** [GetKey] in a directory whose one file is the record of an SM4 key
    of the requested identifier: the suffix is read as [key] and the
    file of that suffix does not exist. *)
Lemma GetKey_only_sm4key_file ks ski dperm file w :
  len ski <> 0 ->
  (forall c, faults w c = None) ->
  nodes w !! path ks
  = Some (Directory dperm {[hex_EncodeToString ski ++ "_sm4key" := file]}) ->
  fst (GetKey ks ski w)
  = Fail (errorString
            ("failed loading key [" ++ hex_EncodeToString ski ++ "] ["
             ++ Error (PathError "open"
                         (Path_string
                            (getPathForAlias ks (hex_EncodeToString ski) "key"))
                         ENOENT)
             ++ "]")).
Proof.
  intros L F N. unfold GetKey. apply Nat.eqb_neq in L. rewrite L.
  unfold bind at 1. unfold getSuffix, bind, ioutil_ReadDir, ret.
  unfold read_dir. rewrite F, N. cbn [fst]. rewrite listing_singleton.
  assert (forall fl, file_info (hex_EncodeToString ski ++ "_sm4key", fl)
                     = {| Name := hex_EncodeToString ski ++ "_sm4key";
                          IsDir := IsDir (file_info ("", fl));
                          Size := Size (file_info ("", fl)) |}) as FI.
  { by intros []. }
  rewrite FI, getSuffix_loop_sm4key.
  cbn [String.eqb Ascii.eqb Bool.eqb andb].
  unfold bind, loadKey, bind, ioutil_ReadFile, read_file.
  autorewrite with world. rewrite F. cbn [getPathForAlias filepath_Join pdir pbase].
  rewrite N. rewrite lookup_singleton_ne; [done|].
  intros E. apply (inj (String.app _)) in E. discriminate E.
Qed.

(** C1, which the code breaks for SM4 keys.  In a writable store over
    an empty directory, with no error injected, whenever [StoreKey] of
    an SM4 key returns no error the following [GetKey] of the
    identifier of that key fails: with the invalid-SKI error when the
    identifier is empty, and otherwise while loading the file of suffix
    [key], which was never written. *)
Theorem StoreKey_GetKey_sm4 ks raw exportable dperm w w1 :
  readOnly ks = false ->
  nodes w !! path ks = Some (Directory dperm ∅) ->
  (forall c, faults w c = None) ->
  let k := sm4PrivateKey raw exportable in
  StoreKey ks (Some k) w = (None, w1) ->
  exists e, fst (GetKey ks (SKI k) w1) = Fail e
            /\ (len (SKI k) <> 0 ->
                e = errorString
                      ("failed loading key [" ++ hex_EncodeToString (SKI k)
                       ++ "] ["
                       ++ Error (PathError "open"
                                   (Path_string
                                      (getPathForAlias ks
                                         (hex_EncodeToString (SKI k)) "key"))
                                   ENOENT)
                       ++ "]")).
Proof.
  intros RO N F k S.
  destruct (len (SKI k) =? 0)%nat eqn:L.
  { exists err_invalid_ski. split; [unfold GetKey; by rewrite L|].
    by apply Nat.eqb_eq in L. }
  apply Nat.eqb_neq in L.
  unfold StoreKey in S. rewrite RO in S. cbn in S.
  unfold bind, storeSm4Key in S.
  destruct (SM4EncryptPEMBlock _ raw (pwd ks)) as [pem|e]; [|done].
  unfold bind, ioutil_WriteFile in S.
  rewrite !F in S. cbn [getPathForAlias filepath_Join pdir pbase] in S.
  rewrite N, lookup_empty in S. cbn in S. injection S as <-.
  eexists. split.
  - apply (GetKey_only_sm4key_file ks (SKI k) dperm
             (Regular (Z.ldiff mode_0600 (umask w)) (content pem))); [done|done|].
    cbn. rewrite lookup_insert_eq. by rewrite insert_empty.
  - intros _. reflexivity.
Qed.

(** The three suffixes that [getSuffix] does answer. *)
Lemma getSuffix_loop_sk alias files dir size :
  getSuffix_loop alias
    ({| Name := alias ++ "_sk"; IsDir := dir; Size := size |} :: files)
  = "sk".
Proof.
  cbn. rewrite HasPrefix_append. by rewrite !HasSuffix_append by (cbn; lia).
Qed.

Lemma getSuffix_loop_pk alias files dir size :
  getSuffix_loop alias
    ({| Name := alias ++ "_pk"; IsDir := dir; Size := size |} :: files)
  = "pk".
Proof.
  cbn. rewrite HasPrefix_append. by rewrite !HasSuffix_append by (cbn; lia).
Qed.

Lemma getSuffix_loop_key alias files dir size :
  getSuffix_loop alias
    ({| Name := alias ++ "_key"; IsDir := dir; Size := size |} :: files)
  = "key".
Proof.
  cbn. rewrite HasPrefix_append. by rewrite !HasSuffix_append by (cbn; lia).
Qed.

(** [GetKey] in a directory whose one file is a regular file named
    after the identifier with one of these suffixes: the suffix is
    found and the file is read and handed to the codec. *)
Lemma GetKey_single_file ks ski dperm fperm data sfx w :
  len ski <> 0 ->
  (forall c, faults w c = None) ->
  nodes w !! path ks
  = Some (Directory dperm
            {[hex_EncodeToString ski ++ "_" ++ sfx := Regular fperm data]}) ->
  (sfx = "sk" ->
   fst (GetKey ks ski w)
   = match PEMtoPrivateKey (Some data) (pwd ks) with
     | Fail err =>
         Fail (errorString
                 ("failed loading secret key [" ++ hex_EncodeToString ski
                  ++ "] [" ++ Error err ++ "]"))
     | Ok (any_ecdsa_PrivateKey k) => Ok (ecdsaPrivateKey k)
     | Ok (any_sm2_PrivateKey k) => Ok (sm2PrivateKey k)
     | Ok _ => Fail (errors_New "secret key type not recognized")
     end)
  /\ (sfx = "pk" ->
      fst (GetKey ks ski w)
      = match PEMtoPublicKey (Some data) (pwd ks) with
        | Fail err =>
            Fail (errorString
                    ("failed loading public key [" ++ hex_EncodeToString ski
                     ++ "] [" ++ Error err ++ "]"))
        | Ok (any_ecdsa_PublicKey k) => Ok (ecdsaPublicKey k)
        | Ok (any_sm2_PublicKey k) => Ok (sm2PublicKey k)
        | Ok _ => Fail (errors_New "public key type not recognized")
        end)
  /\ (sfx = "key" ->
      fst (GetKey ks ski w)
      = match PEMtoAES (Some data) (pwd ks) with
        | Fail err =>
            Fail (errorString
                    ("failed loading key [" ++ hex_EncodeToString ski
                     ++ "] [" ++ Error err ++ "]"))
        | Ok key => Ok (aesPrivateKey key false)
        end).
Proof.
  intros L F N. apply Nat.eqb_neq in L.
  repeat split; intros ->; unfold GetKey; rewrite L;
    unfold bind at 1; unfold getSuffix, bind, ioutil_ReadDir, ret;
    unfold read_dir; rewrite F, N; cbn [fst]; rewrite listing_singleton;
    cbn [file_info].
  - rewrite getSuffix_loop_sk. cbn [String.eqb Ascii.eqb Bool.eqb andb].
    unfold bind, loadPrivateKey, bind, ioutil_ReadFile, read_file.
    autorewrite with world. rewrite F.
    cbn [getPathForAlias filepath_Join pdir pbase].
    rewrite N, lookup_singleton_eq.
    by destruct (PEMtoPrivateKey _ _) as [[]|].
  - rewrite getSuffix_loop_pk. cbn [String.eqb Ascii.eqb Bool.eqb andb].
    unfold bind, loadPublicKey, bind, ioutil_ReadFile, read_file.
    autorewrite with world. rewrite F.
    cbn [getPathForAlias filepath_Join pdir pbase].
    rewrite N, lookup_singleton_eq.
    by destruct (PEMtoPublicKey _ _) as [[]|].
  - rewrite getSuffix_loop_key. cbn [String.eqb Ascii.eqb Bool.eqb andb].
    unfold bind, loadKey, bind, ioutil_ReadFile, read_file.
    autorewrite with world. rewrite F.
    cbn [getPathForAlias filepath_Join pdir pbase].
    rewrite N, lookup_singleton_eq.
    by destruct (PEMtoAES _ _).
Qed.

(** What [ioutil.WriteFile] leaves of an empty directory. *)
Lemma WriteFile_empty_directory p data perm dperm w :
  (forall c, faults w c = None) ->
  nodes w !! pdir p = Some (Directory dperm ∅) ->
  let r := ioutil_WriteFile p data perm w in
  fst r = None
  /\ (forall c, faults (snd r) c = None)
  /\ nodes (snd r) !! pdir p
     = Some (Directory dperm
               {[pbase p := Regular (Z.ldiff perm (umask w)) (content data)]}).
Proof.
  intros F N. unfold ioutil_WriteFile, put_file. rewrite !F, N, lookup_empty.
  cbn. repeat split; [done|]. rewrite lookup_insert_eq. by rewrite insert_empty.
Qed.

(** The round trip for the five other variants: in a writable
    store over an empty directory, with no error injected and a codec
    that restores what it has written, [StoreKey] returns no error and
    [GetKey] of the identifier returns a key equal to the one stored. *)
Lemma StoreKey_GetKey_other_variants ks k dperm w :
  readOnly ks = false ->
  nodes w !! path ks = Some (Directory dperm ∅) ->
  (forall c, faults w c = None) ->
  len (SKI k) <> 0 ->
  codec_restores (pwd ks) k ->
  let stored := StoreKey ks (Some k) w in
  fst stored = None
  /\ exists k', fst (GetKey ks (SKI k) (snd stored)) = Ok k'
                /\ Key_equal k k' = true.
Proof.
  intros RO N F L C stored. subst stored. unfold StoreKey. rewrite RO.
  assert (forall k0, Key_equal k0 k0 = true) as REFL.
  { intros k0. unfold Key_equal, bytes_Equal.
    rewrite bool_decide_eq_true_2 by done. by rewrite !eqb_reflx. }
  destruct k as [kk|kk|kk|kk|raw e|raw e|t|kk|kk|raw e]; cbn in C; try done.
  - destruct C as (pem & ENC & DEC). unfold bind, storePrivateKey. rewrite ENC.
    destruct (WriteFile_empty_directory
                (getPathForAlias ks (hex_EncodeToString (SKI (ecdsaPrivateKey kk))) "sk")
                pem mode_0600 dperm w F N) as (W & F1 & N1).
    unfold bind. destruct (ioutil_WriteFile _ _ _ w) as [err w1]; cbn in W, F1, N1.
    subst err; cbn. split; [done|].
    destruct (GetKey_single_file ks _ _ _ _ "sk" w1 L F1 N1) as (G & _).
    rewrite (G eq_refl), DEC. eauto.
  - destruct C as (pem & ENC & DEC). unfold bind, storePublicKey. rewrite ENC.
    destruct (WriteFile_empty_directory
                (getPathForAlias ks (hex_EncodeToString (SKI (ecdsaPublicKey kk))) "pk")
                pem mode_0600 dperm w F N) as (W & F1 & N1).
    unfold bind. destruct (ioutil_WriteFile _ _ _ w) as [err w1]; cbn in W, F1, N1.
    subst err; cbn. split; [done|].
    destruct (GetKey_single_file ks _ _ _ _ "pk" w1 L F1 N1) as (_ & G & _).
    rewrite (G eq_refl), DEC. eauto.
  - destruct C as (pem & ENC & DEC). unfold bind, storePrivateKey. rewrite ENC.
    destruct (WriteFile_empty_directory
                (getPathForAlias ks (hex_EncodeToString (SKI (sm2PrivateKey kk))) "sk")
                pem mode_0600 dperm w F N) as (W & F1 & N1).
    unfold bind. destruct (ioutil_WriteFile _ _ _ w) as [err w1]; cbn in W, F1, N1.
    subst err; cbn. split; [done|].
    destruct (GetKey_single_file ks _ _ _ _ "sk" w1 L F1 N1) as (G & _).
    rewrite (G eq_refl), DEC. eauto.
  - destruct C as (pem & ENC & DEC). unfold bind, storePublicKey. rewrite ENC.
    destruct (WriteFile_empty_directory
                (getPathForAlias ks (hex_EncodeToString (SKI (sm2PublicKey kk))) "pk")
                pem mode_0600 dperm w F N) as (W & F1 & N1).
    unfold bind. destruct (ioutil_WriteFile _ _ _ w) as [err w1]; cbn in W, F1, N1.
    subst err; cbn. split; [done|].
    destruct (GetKey_single_file ks _ _ _ _ "pk" w1 L F1 N1) as (_ & G & _).
    rewrite (G eq_refl), DEC. eauto.
  - destruct C as (pem & key & ENC & DEC & ID). unfold bind, storeKey. rewrite ENC.
    destruct (WriteFile_empty_directory
                (getPathForAlias ks (hex_EncodeToString (SKI (aesPrivateKey raw e))) "key")
                pem mode_0600 dperm w F N) as (W & F1 & N1).
    unfold bind. destruct (ioutil_WriteFile _ _ _ w) as [err w1]; cbn in W, F1, N1.
    subst err; cbn. split; [done|].
    destruct (GetKey_single_file ks _ _ _ _ "key" w1 L F1 N1) as (_ & _ & G).
    rewrite (G eq_refl), DEC. eexists. split; [done|].
    unfold Key_equal, bytes_Equal. by rewrite bool_decide_eq_true_2.
Qed.

End RoundTrip.

Lemma StoreKey_GetKey_sm4_witness :
  let w := Demo.world {["/ks" := Directory 493 ∅]} in
  let ks := Demo.store "/ks" false (Some []) in
  let k := sm4PrivateKey (Some Demo.sixteen) false in
  fst (StoreKey (H := Demo.collaborators) ks (Some k) w) = None
  /\ exists e,
       fst (GetKey (H := Demo.collaborators) ks (Demo.ski k)
              (snd (StoreKey (H := Demo.collaborators) ks (Some k) w)))
       = Fail e.
Proof.
  intros w ks k. split; [reflexivity|].
  destruct (@StoreKey_GetKey_sm4 Demo.collaborators ks (Some Demo.sixteen) false
              493 w (snd (StoreKey (H := Demo.collaborators) ks (Some k) w))
              eq_refl eq_refl (fun _ => eq_refl) eq_refl) as (e & E & _).
  by exists e.
Defined.

(** The store run on such a key: an SM4 key of 16 bytes stored in an
    empty directory is written to the file of suffix [sm4key] and
    cannot be retrieved. *)
Lemma sm4_round_trip_fails :
  let w := Demo.world {["/ks" := Directory 493 ∅]} in
  let ks := Demo.store "/ks" false (Some []) in
  let k := sm4PrivateKey (Some Demo.sixteen) false in
  let stored := StoreKey (H := Demo.collaborators) ks (Some k) w in
  fst stored = None
  /\ fst (read_dir (snd stored) "/ks")
     = [{| Name := "000102030405060708090a0b0c0d0e0f_sm4key";
           IsDir := false; Size := 17 |}]
  /\ fst (GetKey (H := Demo.collaborators) ks (Demo.ski k) (snd stored))
     = Fail (errorString
          "failed loading key [000102030405060708090a0b0c0d0e0f] [open /ks/000102030405060708090a0b0c0d0e0f_key: no such file or directory]").
Proof. vm_compute. done. Qed.

(** The other symmetric family does make the round trip, here under
    the password [pw]; so does a private SM2 key, by the lemma above. *)
Lemma aes_round_trip :
  let w := Demo.world {["/ks" := Directory 493 ∅]} in
  let ks := Demo.store "/ks" false (Some [x70; x77]) in
  let k := aesPrivateKey (Some Demo.sixteen) false in
  let stored := StoreKey (H := Demo.collaborators) ks (Some k) w in
  fst stored = None
  /\ fst (GetKey (H := Demo.collaborators) ks (Demo.ski k) (snd stored)) = Ok k.
Proof. vm_compute. done. Qed.

Lemma sm2_round_trip :
  let w := Demo.world {["/ks" := Directory 493 ∅]} in
  let ks := Demo.store "/ks" false (Some [x70; x77]) in
  let k := sm2PrivateKey (Demo.sm2_private 171 5 9) in
  let stored := StoreKey (H := Demo.collaborators) ks (Some k) w in
  fst stored = None
  /\ exists k', fst (GetKey (H := Demo.collaborators) ks (Demo.ski k) (snd stored))
                = Ok k'
                /\ Key_equal (H := Demo.collaborators) k k' = true.
Proof.
  apply (@StoreKey_GetKey_other_variants Demo.collaborators _ _ 493); try done.
  by eexists.
Qed.

(** C8, which the code breaks, at a failing input.  The directory holds
    the private key of identifier [ab12] and the public key of
    identifier [ab].  For the identifier [ab] the lookup answers [sk],
    the suffix of the file of [ab12], whose name up to the first
    underscore is not [ab]; [GetKey] then fails on the missing file
    [ab_sk], although the key of identifier [ab] is stored in
    [ab_pk]. *)
Lemma getSuffix_takes_longer_identifier :
  let w := Demo.world
             {["/ks" := Directory 493
                 {["ab12_sk" := Demo.sm2_private_file 43794 5 9;
                   "ab_pk" := Demo.sm2_public_file 171 7]}]} in
  let ks := Demo.store "/ks" false (Some []) in
  let stored := sm2PublicKey {| sm2_X := 171; sm2_Y := 7 |} in
  hex_EncodeToString (Demo.ski stored) = "ab"
  /\ Name <$> fst (read_dir w "/ks") = ["ab12_sk"; "ab_pk"]
  /\ fst (getSuffix ks "ab" w) = "sk"
  /\ fst (GetKey (H := Demo.collaborators) ks (Demo.ski stored) w)
     = Fail (errorString
          "failed loading secret key [ab] [open /ks/ab_sk: no such file or directory]")
  /\ fst (loadPublicKey (H := Demo.collaborators) ks "ab" w)
     = Ok (any_sm2_PublicKey {| sm2_X := 171; sm2_Y := 7 |}).
Proof. vm_compute. done. Qed.

(** ** Further properties: the suffix lookup *)

(** The first file whose name has the prefix decides, and alone. *)
Lemma getSuffix_loop_decided alias pre f post :
  (forall g, g ∈ pre -> strings_HasPrefix (Name g) alias = false) ->
  strings_HasPrefix (Name f) alias = true ->
  getSuffix_loop alias (pre ++ f :: post) = suffix_of_name (Name f).
Proof.
  intros NO YES. induction pre as [|g pre IH]; cbn.
  - by rewrite YES.
  - rewrite (NO g) by apply list_elem_of_here.
    apply IH. intros g' IN. apply NO. by apply list_elem_of_further.
Qed.

Lemma getSuffix_loop_none alias files :
  (forall g, g ∈ files -> strings_HasPrefix (Name g) alias = false) ->
  getSuffix_loop alias files = "".
Proof.
  intros NO. induction files as [|g files IH]; cbn; [done|].
  rewrite (NO g) by apply list_elem_of_here.
  apply IH. intros g' IN. apply NO. by apply list_elem_of_further.
Qed.

(** X1.  The answer of the suffix lookup is decided by the first listed
    file whose name starts with the alias, by the ending of its name:
    [sk], [pk], [key] in this order of tests, and the empty suffix for
    any other ending, whatever files follow; it is the empty suffix
    when no name starts with the alias. *)
Theorem getSuffix_loop_first_match alias files :
  (forall pre f post,
     files = (pre ++ f :: post)%list ->
     (forall g, g ∈ pre -> strings_HasPrefix (Name g) alias = false) ->
     strings_HasPrefix (Name f) alias = true ->
     getSuffix_loop alias files = suffix_of_name (Name f))
  /\ ((forall g, g ∈ files -> strings_HasPrefix (Name g) alias = false) ->
      getSuffix_loop alias files = "").
Proof.
  split.
  - intros pre f post -> NO YES. by apply getSuffix_loop_decided.
  - apply getSuffix_loop_none.
Qed.

Lemma getSuffix_loop_first_match_witness :
  let file n := {| Name := n; IsDir := false; Size := 7 |} in
  getSuffix_loop "ab" [file "0c_pk"; file "ab.tmp"; file "ab_sk"] = ""
  /\ getSuffix_loop "ab" [file "0c_pk"; file "cd_sk"] = "".
Proof.
  intros file. split.
  - apply (proj1 (getSuffix_loop_first_match "ab"
                    [file "0c_pk"; file "ab.tmp"; file "ab_sk"])
             [file "0c_pk"] (file "ab.tmp") [file "ab_sk"]).
    + reflexivity.
    + intros g IN. apply list_elem_of_singleton in IN. by subst g.
    + reflexivity.
  - apply (proj2 (getSuffix_loop_first_match "ab" [file "0c_pk"; file "cd_sk"])).
    intros g IN.
    repeat (apply elem_of_cons in IN as [->|IN]; [reflexivity|]).
    by apply elem_of_nil in IN.
Defined.

(** ** Further properties: what [GetKey] does to the world *)

Lemma only_reads_refl w : only_reads w w.
Proof. repeat split. exists []. split; [done | constructor]. Qed.

Lemma only_reads_trans w1 w2 w3 :
  only_reads w1 w2 -> only_reads w2 w3 -> only_reads w1 w3.
Proof.
  intros (N1 & U1 & F1 & c1 & T1 & R1) (N2 & U2 & F2 & c2 & T2 & R2).
  repeat split; try congruence.
  exists (c2 ++ c1)%list. split.
  - by rewrite T2, T1, app_assoc.
  - by apply Forall_app.
Qed.

Lemma only_reads_logged c w : is_read c -> only_reads w (logged c w).
Proof.
  intros R. repeat split. exists [c]. split; [done|]. by repeat constructor.
Qed.

Lemma ioutil_ReadFile_only_reads p w :
  only_reads w (snd (ioutil_ReadFile p w)).
Proof. by apply only_reads_logged. Qed.

Lemma ioutil_ReadDir_only_reads p w :
  only_reads w (snd (ioutil_ReadDir p w)).
Proof. by apply only_reads_logged. Qed.

Section GetKeyEffects.
Context `{Collaborators}.

Lemma searchKeystoreForSKI_loop_only_reads ks ski files w :
  only_reads w (snd (searchKeystoreForSKI_loop ks ski files w)).
Proof.
  revert w. induction files as [|f files IH]; intros w; cbn.
  { apply only_reads_refl. }
  destruct (IsDir f); [apply IH|].
  destruct (Size f >? _)%Z; [apply IH|].
  unfold bind, ioutil_ReadFile.
  set (w1 := logged _ w).
  assert (only_reads w w1) as R1 by by apply only_reads_logged.
  assert (only_reads w (snd (searchKeystoreForSKI_loop ks ski files w1))) as NEXT.
  { eapply only_reads_trans; [exact R1 | apply IH]. }
  destruct (read_file w _) as [raw|e]; [|exact NEXT].
  destruct (PEMtoPrivateKey raw (pwd ks)) as [obj|e]; [|exact NEXT].
  destruct obj; try exact NEXT;
    destruct (negb (bytes_Equal _ ski)); first [exact NEXT | exact R1].
Qed.

Lemma load_only_reads ks alias w :
  only_reads w (snd (loadKey ks alias w))
  /\ only_reads w (snd (loadSM4Key ks alias w))
  /\ only_reads w (snd (loadPrivateKey ks alias w))
  /\ only_reads w (snd (loadPublicKey ks alias w)).
Proof.
  unfold loadKey, loadSM4Key, loadPrivateKey, loadPublicKey, bind,
    ioutil_ReadFile, ret.
  split; [|split; [|split]];
    (destruct (read_file w _) as [raw|e]; cbn;
     [|by apply only_reads_logged]);
    match goal with
    | |- context [match ?c with _ => _ end] => destruct c
    end; by apply only_reads_logged.
Qed.

(** X2.  [GetKey] never changes the disk: for every store, identifier
    and world, injected errors included, the nodes, the umask and the
    injected errors are those it started with, and every call it has
    added to the trace is a [ReadDir] or a [ReadFile]. *)
Theorem GetKey_only_reads ks ski w : only_reads w (snd (GetKey ks ski w)).
Proof.
  unfold GetKey. destruct (len ski =? 0)%nat; [apply only_reads_refl|].
  unfold bind at 1. unfold getSuffix, bind, ioutil_ReadDir, ret.
  set (w1 := logged (SysReadDir (path ks)) w).
  assert (only_reads w w1) as R1 by by apply only_reads_logged.
  destruct (load_only_reads ks (hex_EncodeToString ski) w1) as (A & B & C & D).
  repeat match goal with
  | |- context [if String.eqb ?a ?b then _ else _] => destruct (String.eqb a b)
  end.
  - unfold bind. eapply only_reads_trans; [exact R1|].
    destruct (loadKey _ _ w1) as [[] w2]; exact A.
  - unfold bind. eapply only_reads_trans; [exact R1|].
    destruct (loadSM4Key _ _ w1) as [[] w2]; exact B.
  - unfold bind. eapply only_reads_trans; [exact R1|].
    destruct (loadPrivateKey _ _ w1) as [[[]|] w2]; exact C.
  - unfold bind. eapply only_reads_trans; [exact R1|].
    destruct (loadPublicKey _ _ w1) as [[[]|] w2]; exact D.
  - unfold searchKeystoreForSKI, bind, ioutil_ReadDir.
    eapply only_reads_trans; [exact R1|].
    eapply only_reads_trans; [|apply searchKeystoreForSKI_loop_only_reads].
    by apply only_reads_logged.
Qed.

End GetKeyEffects.

(** ** Further properties: what [GetKey] returns *)

Section GetKeyResults.
Context `{Collaborators}.

(** X3.  Whatever the directory holds, a key that [GetKey] returns was
    asked for by a non-empty identifier and is an ECDSA or SM2 key,
    private or public, or an AES key marked not exportable: the
    exportable flag of a stored AES key is not restored, and no SM4
    key, no key of the importers' package and no key of a foreign type
    is ever returned. *)
Theorem GetKey_result_kinds ks ski w k :
  fst (GetKey ks ski w) = Ok k ->
  len ski <> 0
  /\ match k with
     | ecdsaPrivateKey _ | ecdsaPublicKey _
     | sm2PrivateKey _ | sm2PublicKey _ => True
     | aesPrivateKey _ exportable => exportable = false
     | sm4PrivateKey _ _ | foreignKey _
     | gm_sm2PrivateKey _ | gm_sm2PublicKey _ | gm_sm4PrivateKey _ _ => False
     end.
Proof.
  unfold GetKey. destruct (Nat.eqb_spec (len ski) 0) as [|L]; [done|].
  intros E. split; [exact L|]. revert E.
  unfold bind at 1. unfold getSuffix, bind, ioutil_ReadDir, ret.
  set (files := fst (read_dir w (path ks))).
  set (w1 := logged (SysReadDir (path ks)) w).
  pose proof (getSuffix_loop_range (hex_EncodeToString ski) files) as R.
  repeat (apply elem_of_cons in R as [->|R]); [| | | |by apply elem_of_nil in R];
    cbn [String.eqb Ascii.eqb Bool.eqb andb].
  - unfold searchKeystoreForSKI, bind, ioutil_ReadDir.
    pose proof (searchKeystoreForSKI_loop_spec ks ski
                  (fst (read_dir w1 (path ks)))
                  (logged (SysReadDir (path ks)) w1)) as [_ S].
    intros E. rewrite E in S.
    destruct S as (pre & f & post & _ & (_ & r & obj & _ & _ & AK & _) & _).
    destruct obj; cbn in AK; by simplify_eq.
  - unfold bind, loadPrivateKey, bind.
    destruct (ioutil_ReadFile _ w1) as [[raw'|e] w2]; [|done].
    destruct (PEMtoPrivateKey raw' (pwd ks)) as [[]|e]; cbn; intros; by simplify_eq.
  - unfold bind, loadPublicKey, bind.
    destruct (ioutil_ReadFile _ w1) as [[raw'|e] w2]; [|done].
    destruct (PEMtoPublicKey raw' (pwd ks)) as [[]|e]; cbn; intros; by simplify_eq.
  - unfold bind, loadKey, bind.
    destruct (ioutil_ReadFile _ w1) as [[raw'|e] w2]; [|done].
    destruct (PEMtoAES raw' (pwd ks)) as [|e]; cbn; intros; by simplify_eq.
Qed.

(** X4.  When the listing of the store's directory comes back empty,
    because the directory is missing, is no directory, cannot be read
    or holds nothing, [GetKey] of a non-empty identifier fails with the
    not-found error: the error of [ReadDir] is dropped, the directory
    is listed twice and no file is read. *)
Theorem GetKey_unlistable_directory ks ski w :
  len ski <> 0 ->
  fst (read_dir w (path ks)) = [] ->
  GetKey ks ski w
  = (Fail (err_not_found ks ski),
     logged (SysReadDir (path ks)) (logged (SysReadDir (path ks)) w)).
Proof.
  intros L E. unfold GetKey. apply Nat.eqb_neq in L. rewrite L.
  unfold bind at 1. unfold getSuffix, bind, ioutil_ReadDir, ret.
  rewrite E. cbn [getSuffix_loop String.eqb].
  unfold searchKeystoreForSKI, bind, ioutil_ReadDir.
  change (read_dir (logged (SysReadDir (path ks)) w) (path ks))
    with (read_dir w (path ks)).
  by rewrite E.
Qed.

End GetKeyResults.

Lemma GetKey_result_kinds_witness :
  let w := Demo.world {["/ks" := Directory 493 ∅]} in
  let ks := Demo.store "/ks" false (Some []) in
  let k := aesPrivateKey (Some Demo.sixteen) true in
  let stored := StoreKey (H := Demo.collaborators) ks (Some k) w in
  fst (GetKey (H := Demo.collaborators) ks (Demo.ski k) (snd stored))
  = Ok (aesPrivateKey (Some Demo.sixteen) false)
  /\ len (Demo.ski k) <> 0.
Proof.
  intros w ks k stored. split; [reflexivity|].
  apply (@GetKey_result_kinds Demo.collaborators ks (Demo.ski k) (snd stored)
           (aesPrivateKey (Some Demo.sixteen) false)).
  reflexivity.
Defined.

Lemma GetKey_unlistable_directory_witness :
  let ks := Demo.store "/missing" false (Some []) in
  fst (GetKey (H := Demo.collaborators) ks (Some [xab]) (Demo.world ∅))
  = Fail (errorString "key with SKI ab not found in /missing").
Proof.
  intros ks.
  rewrite (@GetKey_unlistable_directory Demo.collaborators ks (Some [xab])
             (Demo.world ∅)); [reflexivity | discriminate | reflexivity].
Defined.

(** ** Further properties: what [StoreKey] does to the world *)

(** [ioutil.WriteFile] returns no error exactly when the file is there
    afterwards with all the data. *)
Lemma WriteFile_cases p data perm w :
  let r := ioutil_WriteFile p data perm w in
  let w0 := logged (SysWriteFile p (content data) perm) w in
  fst r <> None
  \/ exists dperm entries fperm,
       faults w (SysWriteFile p (content data) perm) = None
       /\ nodes w !! pdir p = Some (Directory dperm entries)
       /\ match entries !! pbase p with
          | Some (Regular old _) => fperm = old
          | Some (SubDir _) => False
          | None => fperm = Z.ldiff perm (umask w)
          end
       /\ fst r = None
       /\ snd r = put_file p dperm entries fperm (content data) w0.
Proof.
  unfold ioutil_WriteFile; cbn.
  destruct (faults w (SysWriteFile _ _ _)) eqn:F; [by left|].
  destruct (nodes w !! pdir p) as [[dperm entries|]|] eqn:N; [|by left..].
  destruct (faults w (SysWrite _ _)) eqn:FW;
    [destruct (entries !! pbase p) as [[]|]; by left|].
  destruct (faults w (SysClose _)) eqn:FC;
    [destruct (entries !! pbase p) as [[]|]; by left|].
  destruct (entries !! pbase p) as [[old d|]|] eqn:E; [|by left|].
  - right. exists dperm, entries, old. by rewrite E.
  - right. exists dperm, entries, (Z.ldiff perm (umask w)). by rewrite E.
Qed.


Lemma mode_0600_owner_only m : owner_only (Z.ldiff mode_0600 m).
Proof.
  unfold owner_only. apply Z.bits_inj'. intros n Hn.
  rewrite Z.land_spec, Z.ldiff_spec, Z.bits_0.
  destruct (Z.lt_ge_cases n 6) as [Small|Large].
  - assert (Z.testbit mode_0600 n = false) as ->; [|done].
    assert (n = 0 \/ n = 1 \/ n = 2 \/ n = 3 \/ n = 4 \/ n = 5)%Z
      as [->|[->|[->|[->|[->| ->]]]]] by lia; reflexivity.
  - assert (Z.testbit (7 * 8 + 7) n = false) as ->.
    { apply Z.bits_above_log2; [lia|].
      change (Z.log2 (7 * 8 + 7)) with 5%Z. lia. }
    apply andb_false_r.
Qed.

Section StoreKeyEffects.
Context `{Collaborators}.

(** [StoreKey] on a writable store: the codec is asked for the record,
    which is written to the one file named after the key. *)
Lemma StoreKey_cases ks k w :
  readOnly ks = false ->
  StoreKey ks (Some k) w
  = match record_of (pwd ks) k with
    | None =>
        (Some (errorString ("key type not reconigned [" ++ fmt_s k ++ "]")), w)
    | Some (Fail err) =>
        (Some (errorString (label_of_key k ++ " [" ++ Error err ++ "]")), w)
    | Some (Ok pem) =>
        let r := ioutil_WriteFile (filepath_Join (path ks) (file_name k))
                   pem mode_0600 w in
        (wrap (label_of_key k) (fst r), snd r)
    end.
Proof.
  intros RO. unfold StoreKey. rewrite RO.
  destruct k; cbn [record_of]; try reflexivity;
    unfold bind, storePrivateKey, storePublicKey, storeKey, storeSm4Key,
      bind, ret, getPathForAlias, file_name;
    cbn [suffix_of_key label_of_key];
    match goal with
    | |- context [match ?c with Ok _ => _ | Fail _ => _ end] => destruct c
    end; try reflexivity;
    destruct (ioutil_WriteFile _ _ _ w) as [[] ?]; reflexivity.
Qed.

Lemma wrap_None what r : wrap what r = None <-> r = None.
Proof. by destruct r. Qed.

(** X5.  On a writable store, [StoreKey] of the nil key, of a key of a
    type it does not know, or of a key whose record the codec refuses,
    returns its error and leaves the world as it was, trace included:
    no file is created or touched and no call is made.  The error of
    the codec is passed on inside the words of the variant. *)
Theorem StoreKey_fails_before_write ks w :
  readOnly ks = false ->
  StoreKey ks None w
  = (Some (errors_New "invalid key. It must be different from nil"), w)
  /\ (forall k, record_of (pwd ks) k = None ->
      StoreKey ks (Some k) w
      = (Some (errorString ("key type not reconigned [" ++ fmt_s k ++ "]")), w))
  /\ (forall k err, record_of (pwd ks) k = Some (Fail err) ->
      StoreKey ks (Some k) w
      = (Some (errorString (label_of_key k ++ " [" ++ Error err ++ "]")), w)).
Proof.
  intros RO. split; [|split].
  - unfold StoreKey. by rewrite RO.
  - intros k R. by rewrite StoreKey_cases, R.
  - intros k err R. by rewrite StoreKey_cases, R.
Qed.


(** X7.  After a [StoreKey] that returns no error the file of the key
    is a regular file that holds exactly the record the codec gave for
    the key under the store's password.  A file that was there keeps
    its mode; a new file gets the mode [0600] less the umask, which
    grants nothing to group and others whatever the umask is. *)
Theorem StoreKey_file ks k w :
  fst (StoreKey ks (Some k) w) = None ->
  exists pem perm,
    record_of (pwd ks) k = Some (Ok pem)
    /\ entry (snd (StoreKey ks (Some k) w)) (path ks) (file_name k)
       = Some (Regular perm (content pem))
    /\ match entry w (path ks) (file_name k) with
       | Some (Regular old _) => perm = old
       | _ => perm = Z.ldiff mode_0600 (umask w) /\ owner_only perm
       end.
Proof.
  destruct (readOnly ks) eqn:RO.
  { unfold StoreKey. by rewrite RO. }
  rewrite (StoreKey_cases _ _ _ RO).
  destruct (record_of (pwd ks) k) as [[pem|err]|]; [|done..].
  cbn [fst snd]. intros W. apply wrap_None in W.
  destruct (WriteFile_cases (filepath_Join (path ks) (file_name k)) pem
              mode_0600 w) as [E|(dperm & entries & fperm & F & N & P & E & ->)];
    [done|].
  exists pem, fperm. split; [done|]. cbn in N, P. split.
  - unfold entry, put_file, set_node; cbn. by rewrite !lookup_insert_eq.
  - unfold entry. rewrite N.
    destruct (entries !! file_name k) as [[old d|]|]; [done|done|].
    subst fperm. split; [done|]. apply mode_0600_owner_only.
Qed.

End StoreKeyEffects.

Lemma StoreKey_fails_before_write_witness :
  let w := Demo.world {["/ks" := Directory 493 ∅]} in
  let ks := Demo.store "/ks" false (Some []) in
  StoreKey (H := Demo.locked) ks (Some (aesPrivateKey (Some Demo.sixteen) false)) w
  = (Some (errorString "failed storing AES key [codec unavailable]"), w)
  /\ StoreKey (H := Demo.collaborators) ks (Some (foreignKey "*pkcs11.Key")) w
     = (Some (errorString "key type not reconigned [&{}]"), w)
  /\ StoreKey (H := Demo.collaborators) ks None w
     = (Some (errors_New "invalid key. It must be different from nil"), w).
Proof.
  intros w ks. split; [|split].
  - apply (proj2 (proj2 (@StoreKey_fails_before_write Demo.locked ks w eq_refl))
             (aesPrivateKey (Some Demo.sixteen) false)
             (errors_New "codec unavailable")).
    reflexivity.
  - apply (proj1 (proj2 (@StoreKey_fails_before_write Demo.collaborators ks w
                           eq_refl)) (foreignKey "*pkcs11.Key")).
    reflexivity.
  - apply (proj1 (@StoreKey_fails_before_write Demo.collaborators ks w eq_refl)).
Defined.


Lemma StoreKey_file_witness :
  let w := Demo.world {["/ks" := Directory 493 ∅]} in
  let ks := Demo.store "/ks" false (Some [x70; x77]) in
  let k := sm4PrivateKey (Some Demo.sixteen) false in
  exists pem perm,
    entry (snd (StoreKey (H := Demo.collaborators) ks (Some k) w)) "/ks"
      "000102030405060708090a0b0c0d0e0f_sm4key"
    = Some (Regular perm (content pem))
    /\ owner_only perm.
Proof.
  intros w ks k.
  destruct (@StoreKey_file Demo.collaborators ks k w eq_refl)
    as (pem & perm & _ & E & P).
  exists pem, perm. split; [exact E|]. exact (proj2 P).
Defined.

(** ** Further properties: lookup by file name *)

Lemma Name_file_info n f : Name (file_info (n, f)) = n.
Proof. by destruct f. Qed.

Lemma elem_of_listing entries g :
  g ∈ listing entries
  <-> exists n f, entries !! n = Some f /\ g = file_info (n, f).
Proof.
  unfold listing. rewrite merge_sort_Permutation, list_elem_of_fmap. split.
  - intros ([n f] & -> & IN%elem_of_map_to_list). eauto.
  - intros (n & f & E & ->). exists (n, f). by rewrite elem_of_map_to_list.
Qed.

(** When every listed file with the prefix has the same name, that name
    decides, wherever the file stands. *)
Lemma getSuffix_loop_sole alias name files :
  (forall g, g ∈ files -> strings_HasPrefix (Name g) alias = true ->
             Name g = name) ->
  (exists g, g ∈ files /\ Name g = name) ->
  strings_HasPrefix name alias = true ->
  getSuffix_loop alias files = suffix_of_name name.
Proof.
  intros SOLE (g0 & IN & E) P. induction files as [|g files IH].
  { by apply elem_of_nil in IN. }
  cbn. destruct (strings_HasPrefix (Name g) alias) eqn:PG.
  - by rewrite (SOLE g (list_elem_of_here _ _) PG).
  - apply IH.
    + intros g' IN'. apply SOLE. by apply list_elem_of_further.
    + apply elem_of_cons in IN as [->|IN]; [|done]. congruence.
Qed.

Lemma suffix_of_name_convention alias sfx :
  sfx ∈ ["sk"; "pk"; "key"] -> suffix_of_name (alias ++ "_" ++ sfx) = sfx.
Proof.
  intros IN. unfold suffix_of_name.
  repeat (apply elem_of_cons in IN as [->|IN]);
    [| | |by apply elem_of_nil in IN];
    rewrite (HasSuffix_append alias _ "sk"),
      (HasSuffix_append alias _ "pk"), (HasSuffix_append alias _ "key")
      by (rewrite length_append; cbn; lia);
    reflexivity.
Qed.

Section Lookup.
Context `{Collaborators}.

(** The indexed path of [GetKey]: the suffix [sfx] found, the file of
    that suffix read and decoded. *)
Lemma GetKey_with_suffix ks ski sfx perm data dperm entries w :
  len ski <> 0 ->
  (forall c, faults w c = None) ->
  nodes w !! path ks = Some (Directory dperm entries) ->
  sfx ∈ ["sk"; "pk"; "key"] ->
  getSuffix_loop (hex_EncodeToString ski) (listing entries) = sfx ->
  entries !! (hex_EncodeToString ski ++ "_" ++ sfx) = Some (Regular perm data) ->
  GetKey ks ski w
  = (decoded ks ski sfx data,
     logged (SysReadFile (getPathForAlias ks (hex_EncodeToString ski) sfx))
       (logged (SysReadDir (path ks)) w)).
Proof.
  intros L F N IN S E. unfold GetKey. apply Nat.eqb_neq in L. rewrite L.
  unfold bind at 1. unfold getSuffix, bind, ioutil_ReadDir, ret.
  unfold read_dir. rewrite F, N. cbn [fst]. rewrite S. unfold decoded.
  repeat (apply elem_of_cons in IN as [->|IN]);
    [| | |by apply elem_of_nil in IN];
    cbn [String.eqb Ascii.eqb Bool.eqb andb];
    unfold bind, loadKey, loadPrivateKey, loadPublicKey, bind,
      ioutil_ReadFile, read_file;
    autorewrite with world; rewrite F;
    cbn [getPathForAlias filepath_Join pdir pbase]; rewrite N, E.
  - by destruct (PEMtoPrivateKey _ _) as [[]|].
  - by destruct (PEMtoPublicKey _ _) as [[]|].
  - by destruct (PEMtoAES _ _).
Qed.

Lemma GetKey_named_file ks ski sfx perm data dperm entries w :
  len ski <> 0 ->
  (forall c, faults w c = None) ->
  nodes w !! path ks = Some (Directory dperm entries) ->
  sfx ∈ ["sk"; "pk"; "key"] ->
  sole_prefix entries (hex_EncodeToString ski)
    (hex_EncodeToString ski ++ "_" ++ sfx) ->
  entries !! (hex_EncodeToString ski ++ "_" ++ sfx) = Some (Regular perm data) ->
  GetKey ks ski w
  = (decoded ks ski sfx data,
     logged (SysReadFile (getPathForAlias ks (hex_EncodeToString ski) sfx))
       (logged (SysReadDir (path ks)) w)).
Proof.
  intros L F N IN SOLE E. apply (GetKey_with_suffix _ _ _ perm _ dperm entries);
    try done.
  rewrite <- (suffix_of_name_convention (hex_EncodeToString ski) sfx IN) at 1.
  apply getSuffix_loop_sole.
  - intros g (n & f & En & ->)%elem_of_listing P. rewrite Name_file_info in *.
    by destruct (SOLE n f En P).
  - exists (file_info (hex_EncodeToString ski ++ "_" ++ sfx, Regular perm data)).
    split; [|done]. apply elem_of_listing. eauto.
  - apply HasPrefix_append.
Qed.

(** X9.  Lookup by name.  Let no error be injected, let the store's
    directory hold a regular file named by the requested non-empty
    identifier in hexadecimal, an underscore and one of the suffixes
    [sk], [pk], [key], and let no other entry of the directory start
    with that hexadecimal identifier.  Then [GetKey] lists the
    directory once, reads that one file and returns what the codec
    makes of it under the store's password: the key decoded, of the
    kind the suffix names; the error of the codec, as under a wrong
    password, inside the failed-loading error that names the
    identifier; or the type-not-recognized error for an object of
    another kind.  The identifier of the decoded key is not compared
    with the one asked for. *)
Theorem GetKey_by_name ks ski sfx perm data dperm entries w :
  len ski <> 0 ->
  (forall c, faults w c = None) ->
  nodes w !! path ks = Some (Directory dperm entries) ->
  sfx ∈ ["sk"; "pk"; "key"] ->
  sole_prefix entries (hex_EncodeToString ski)
    (hex_EncodeToString ski ++ "_" ++ sfx) ->
  entries !! (hex_EncodeToString ski ++ "_" ++ sfx) = Some (Regular perm data) ->
  GetKey ks ski w
  = (decoded ks ski sfx data,
     logged (SysReadFile (getPathForAlias ks (hex_EncodeToString ski) sfx))
       (logged (SysReadDir (path ks)) w))
  /\ (forall err,
        (sfx = "sk" /\ PEMtoPrivateKey (Some data) (pwd ks) = Fail err)
        \/ (sfx = "pk" /\ PEMtoPublicKey (Some data) (pwd ks) = Fail err)
        \/ (sfx = "key" /\ PEMtoAES (Some data) (pwd ks) = Fail err) ->
        exists what,
          fst (GetKey ks ski w)
          = Fail (errorString
                    (what ++ " [" ++ hex_EncodeToString ski ++ "] ["
                     ++ Error err ++ "]"))).
Proof.
  intros L F N IN SOLE E.
  pose proof (GetKey_named_file ks ski sfx perm data dperm entries w
                L F N IN SOLE E) as G.
  split; [exact G|]. intros err D. rewrite G. cbn [fst]. unfold decoded.
  destruct D as [[-> D]|[[-> D]|[-> D]]];
    cbn [String.eqb Ascii.eqb Bool.eqb andb]; rewrite D.
  - by exists "failed loading secret key".
  - by exists "failed loading public key".
  - by exists "failed loading key".
Qed.

(** [StoreKey] followed by [GetKey] in a directory where only the key's
    own file may start with its identifier: the record is written and
    then read back and decoded. *)
Lemma StoreKey_then_GetKey ks k dperm entries w :
  readOnly ks = false ->
  nodes w !! path ks = Some (Directory dperm entries) ->
  (forall c, faults w c = None) ->
  len (SKI k) <> 0 ->
  suffix_of_key k ∈ ["sk"; "pk"; "key"] ->
  sole_prefix entries (hex_EncodeToString (SKI k)) (file_name k) ->
  forall pem, record_of (pwd ks) k = Some (Ok pem) ->
  let stored := StoreKey ks (Some k) w in
  fst stored = None
  /\ fst (GetKey ks (SKI k) (snd stored))
     = decoded ks (SKI k) (suffix_of_key k) (content pem).
Proof.
  intros RO N F L IN SOLE pem R stored. subst stored.
  rewrite (StoreKey_cases _ _ _ RO), R. cbn [fst snd].
  destruct (WriteFile_cases (filepath_Join (path ks) (file_name k)) pem
              mode_0600 w) as [E|(dp & es & fperm & _ & N' & P & E & ->)].
  { exfalso. apply E. unfold ioutil_WriteFile. rewrite !F. cbn. rewrite N.
    destruct (entries !! file_name k) as [[]|] eqn:X; try done.
    destruct (SOLE _ _ X (HasPrefix_append _ _)) as (_ & ? & ? & ?). done. }
  cbn in N'. rewrite N in N'. injection N' as <- <-.
  rewrite E. split; [done|].
  rewrite (GetKey_named_file ks (SKI k) (suffix_of_key k) fperm (content pem)
             dperm (<[file_name k := Regular fperm (content pem)]> entries));
    try done.
  - cbn. by rewrite lookup_insert_eq.
  - intros n file. unfold file_name. rewrite lookup_insert.
    case_decide as X; [intros [= <-]; eauto|]. apply SOLE.
  - apply lookup_insert_eq.
Qed.

(** X10.  The round trip in a directory that holds other keys.  In a
    writable store whose directory exists, with no error injected, let
    [k] be a key of one of the five variants other than SM4, with a
    non-empty identifier, which the codec restores, and let no entry
    of the directory other than the key's own file, if it is there,
    start with the identifier in hexadecimal.  Then [StoreKey] returns
    no error and [GetKey] of the identifier returns a key equal to
    [k]. *)
Theorem StoreKey_GetKey_round_trip ks k dperm entries w :
  readOnly ks = false ->
  nodes w !! path ks = Some (Directory dperm entries) ->
  (forall c, faults w c = None) ->
  len (SKI k) <> 0 ->
  codec_restores (pwd ks) k ->
  sole_prefix entries (hex_EncodeToString (SKI k)) (file_name k) ->
  let stored := StoreKey ks (Some k) w in
  fst stored = None
  /\ exists k', fst (GetKey ks (SKI k) (snd stored)) = Ok k'
                /\ Key_equal k k' = true.
Proof.
  intros RO N F L C SOLE stored. subst stored.
  assert (exists pem, record_of (pwd ks) k = Some (Ok pem)
                      /\ suffix_of_key k ∈ ["sk"; "pk"; "key"]
                      /\ exists k', decoded ks (SKI k) (suffix_of_key k) (content pem)
                                    = Ok k' /\ Key_equal k k' = true)
    as (pem & R & IN & k' & D & EQ).
  { assert (forall k0, Key_equal k0 k0 = true) as REFL.
    { intros k0. unfold Key_equal, bytes_Equal.
      rewrite bool_decide_eq_true_2 by done. by rewrite !eqb_reflx. }
    destruct k as [kk|kk|kk|kk|raw e|raw e|t|kk|kk|raw e]; cbn in C; try done;
      [destruct C as (pem & ENC & DEC)..|destruct C as (pem & key & ENC & DEC & ID)];
      exists pem; (split; [cbn; by rewrite ENC|]);
      (split; [by repeat constructor|]);
      unfold decoded; cbn [suffix_of_key String.eqb Ascii.eqb Bool.eqb andb];
      rewrite DEC; eexists; (split; [reflexivity|]); try apply REFL.
    unfold Key_equal, bytes_Equal. by rewrite bool_decide_eq_true_2. }
  destruct (StoreKey_then_GetKey ks k dperm entries w RO N F L IN SOLE pem R)
    as [S G].
  split; [exact S|]. exists k'. by rewrite G.
Qed.

End Lookup.

(** Decides [sole_prefix] on a directory given entry by entry. *)
Ltac decide_sole_prefix :=
  let n := fresh "n" in
  let file := fresh "file" in
  let E := fresh "E" in
  let P := fresh "P" in
  intros n file E P; apply elem_of_map_to_list in E;
  match type of E with
  | _ ∈ ?l => let l' := eval vm_compute in l in change l with l' in E
  end;
  repeat (apply elem_of_cons in E as [E|E];
          [injection E as -> ->;
           first [discriminate P | split; [reflexivity | eauto]]|]);
  by apply elem_of_nil in E.

Lemma GetKey_by_name_witness :
  let dir := {["ab_sk" := Demo.sm2_private_file 205 5 9;
               "00_pk" := Demo.sm2_public_file 0 7]} in
  let w := Demo.world {["/ks" := Directory 493 dir]} in
  fst (GetKey (H := Demo.collaborators) (Demo.store "/ks" false (Some []))
         (Some [xab]) w)
  = Ok (sm2PrivateKey (Demo.sm2_private 205 5 9))
  /\ hex_EncodeToString (Demo.ski (sm2PrivateKey (Demo.sm2_private 205 5 9)))
     = "cd"
  /\ exists what,
       fst (GetKey (H := Demo.collaborators) (Demo.store "/ks" false (Some [x70]))
              (Some [xab]) w)
       = Fail (errorString (what ++ " [ab] [failed decoding PEM]")).
Proof.
  intros dir w.
  pose (data := Demo.pem_of (Demo.private_to_pem
                   (any_sm2_PrivateKey (Demo.sm2_private 205 5 9)) (Some []))).
  split; [|split; [reflexivity|]].
  - rewrite (proj1 (@GetKey_by_name Demo.collaborators
               (Demo.store "/ks" false (Some [])) (Some [xab]) "sk" mode_0600
               data 493 dir w
               ltac:(discriminate) (fun _ => eq_refl) ltac:(reflexivity)
               ltac:(by repeat constructor) ltac:(decide_sole_prefix)
               ltac:(reflexivity))).
    reflexivity.
  - apply (proj2 (@GetKey_by_name Demo.collaborators
               (Demo.store "/ks" false (Some [x70])) (Some [xab]) "sk" mode_0600
               data 493 dir w
               ltac:(discriminate) (fun _ => eq_refl) ltac:(reflexivity)
               ltac:(by repeat constructor) ltac:(decide_sole_prefix)
               ltac:(reflexivity))
             (errors_New "failed decoding PEM")).
    left. split; reflexivity.
Defined.

Lemma StoreKey_GetKey_round_trip_witness :
  let w := Demo.world
             {["/ks" := Directory 493
                 {["ab12_sk" := Demo.sm2_private_file 43794 5 9;
                   "00_pk" := Demo.sm2_public_file 0 7]}]} in
  let ks := Demo.store "/ks" false (Some [x70; x77]) in
  let k := sm2PublicKey {| sm2_X := 205; sm2_Y := 7 |} in
  let stored := StoreKey (H := Demo.collaborators) ks (Some k) w in
  fst stored = None
  /\ exists k', fst (GetKey (H := Demo.collaborators) ks (Demo.ski k) (snd stored))
                = Ok k'
                /\ Key_equal (H := Demo.collaborators) k k' = true.
Proof.
  intros w ks k stored.
  apply (@StoreKey_GetKey_round_trip Demo.collaborators ks k 493
           {["ab12_sk" := Demo.sm2_private_file 43794 5 9;
             "00_pk" := Demo.sm2_public_file 0 7]} w).
  - reflexivity.
  - reflexivity.
  - reflexivity.
  - discriminate.
  - by eexists.
  - decide_sole_prefix.
Defined.

(** ** Further properties: a public key beside its private key *)

#[global] Instance byName_trans : Transitive byName.
Proof. intros f g h. unfold byName. apply (transitivity (R := String.le)). Qed.

#[global] Instance byName_total : Total byName.
Proof. intros f g. unfold byName. apply (total String.le). Qed.

Lemma listing_sorted entries : StronglySorted byName (listing entries).
Proof. apply StronglySorted_merge_sort; apply _. Qed.

Lemma compare_append_common (a x y : string) :
  String.compare (a ++ x) (a ++ y) = String.compare x y.
Proof.
  induction a as [|c a IH]; [done|].
  rewrite !append_cons. cbn.
  assert (Ascii.compare c c = Eq) as -> by (unfold Ascii.compare; apply N.compare_refl).
  exact IH.
Qed.

Lemma leb_append_common (a x y : string) :
  String.leb (a ++ x) (a ++ y) = String.leb x y.
Proof. unfold String.leb. by rewrite compare_append_common. Qed.

(** In a sorted listing the public record of an identifier comes before
    its private record, and decides. *)
Lemma getSuffix_loop_pk_first alias files :
  StronglySorted byName files ->
  (forall g, g ∈ files -> strings_HasPrefix (Name g) alias = true ->
             Name g = alias ++ "_" ++ "pk" \/ Name g = alias ++ "_" ++ "sk") ->
  (exists g, g ∈ files /\ Name g = alias ++ "_" ++ "pk") ->
  getSuffix_loop alias files = "pk".
Proof.
  intros SORTED. induction SORTED as [|g files SORTED IH LE]; intros TWO (gp & IN & NP).
  { by apply elem_of_nil in IN. }
  assert (strings_HasPrefix (Name gp) alias = true) as PP.
  { rewrite NP. apply HasPrefix_append. }
  cbn. destruct (strings_HasPrefix (Name g) alias) eqn:PG.
  - destruct (TWO g (list_elem_of_here _ _) PG) as [E|E].
    + rewrite E. apply (suffix_of_name_convention alias "pk").
      by repeat constructor.
    + exfalso. apply elem_of_cons in IN as [->|IN]; [by rewrite NP in E; apply (inj (String.app _)) in E|].
      rewrite Forall_forall in LE. specialize (LE gp IN). unfold byName in LE.
      rewrite E, NP, leb_append_common in LE. exact LE.
  - apply IH.
    + intros g' IN'. apply TWO. by apply list_elem_of_further.
    + exists gp. split; [|done].
      apply elem_of_cons in IN as [->|IN]; [congruence|done].
Qed.

Section Shadow.
Context `{Collaborators}.

(** X11.  A public key hides the private key of the same identifier.
    Let no error be injected, let the store's directory hold the
    regular file of suffix [pk] of a non-empty identifier, and let
    every entry whose name starts with the identifier in hexadecimal
    be that file or the file of suffix [sk].  Then [GetKey] reads and
    decodes the file of suffix [pk], whether or not the file of suffix
    [sk] is there: the listing is sorted by name and the first match
    decides, so the private key stored under [sk] is not returned. *)
Theorem GetKey_public_before_private ks ski perm data dperm entries w :
  len ski <> 0 ->
  (forall c, faults w c = None) ->
  nodes w !! path ks = Some (Directory dperm entries) ->
  entries !! (hex_EncodeToString ski ++ "_" ++ "pk") = Some (Regular perm data) ->
  (forall n file,
     entries !! n = Some file ->
     strings_HasPrefix n (hex_EncodeToString ski) = true ->
     n = hex_EncodeToString ski ++ "_" ++ "pk"
     \/ n = hex_EncodeToString ski ++ "_" ++ "sk") ->
  GetKey ks ski w
  = (decoded ks ski "pk" data,
     logged (SysReadFile (getPathForAlias ks (hex_EncodeToString ski) "pk"))
       (logged (SysReadDir (path ks)) w)).
Proof.
  intros L F N E TWO.
  apply (GetKey_with_suffix _ _ _ perm _ dperm entries); try done.
  { by repeat constructor. }
  apply getSuffix_loop_pk_first.
  - apply listing_sorted.
  - intros g (n & f & En & ->)%elem_of_listing P. rewrite Name_file_info in *.
    by apply (TWO n f).
  - exists (file_info (hex_EncodeToString ski ++ "_" ++ "pk", Regular perm data)).
    split; [|done]. apply elem_of_listing. eauto.
Qed.

End Shadow.

Lemma GetKey_public_before_private_witness :
  let w := Demo.world
             {["/ks" := Directory 493
                 {["ab_sk" := Demo.sm2_private_file 171 5 9;
                   "ab_pk" := Demo.sm2_public_file 171 5]}]} in
  let ks := Demo.store "/ks" false (Some []) in
  fst (GetKey (H := Demo.collaborators) ks (Some [xab]) w)
  = Ok (sm2PublicKey {| sm2_X := 171; sm2_Y := 5 |}).
Proof.
  intros w ks.
  rewrite (@GetKey_public_before_private Demo.collaborators ks (Some [xab])
             mode_0600
             (Demo.pem_of (Demo.public_to_pem
                             (any_sm2_PublicKey {| sm2_X := 171; sm2_Y := 5 |})
                             (Some [])))
             493
             {["ab_sk" := Demo.sm2_private_file 171 5 9;
               "ab_pk" := Demo.sm2_public_file 171 5]} w).
  - reflexivity.
  - discriminate.
  - reflexivity.
  - reflexivity.
  - reflexivity.
  - intros n file E P. apply elem_of_map_to_list in E.
    match type of E with
    | _ ∈ ?l => let l' := eval vm_compute in l in change l with l' in E
    end.
    repeat (apply elem_of_cons in E as [E|E];
            [injection E as -> ->; first [by left | by right]|]).
    by apply elem_of_nil in E.
Defined.

(** ** Further properties: file names *)

Lemma hexdigit_inj n m :
  n < 16 -> m < 16 -> hexdigit n = hexdigit m -> n = m.
Proof.
  intros Hn Hm E.
  do 16 (destruct n as [|n];
         [do 16 (destruct m as [|m]; [first [reflexivity | discriminate E]|]);
          lia|]).
  lia.
Qed.

Lemma hexdigit_not_underscore n : hexdigit n <> "_"%char.
Proof. do 16 (destruct n as [|n]; [discriminate|]). discriminate. Qed.

Lemma byte_of_nibbles (b c : byte) :
  Byte.to_nat b / 16 = Byte.to_nat c / 16 ->
  Byte.to_nat b mod 16 = Byte.to_nat c mod 16 ->
  b = c.
Proof.
  intros Q R.
  assert (Byte.to_nat b = Byte.to_nat c) as E.
  { rewrite (Nat.div_mod_eq (Byte.to_nat b) 16), (Nat.div_mod_eq (Byte.to_nat c) 16).
    by rewrite Q, R. }
  pose proof (Byte.of_to_nat b) as Hb. rewrite E, Byte.of_to_nat in Hb.
  by injection Hb.
Qed.

Lemma nibble_bounds (b : byte) :
  Byte.to_nat b / 16 < 16 /\ Byte.to_nat b mod 16 < 16.
Proof.
  pose proof (Byte.to_nat_bounded b). split.
  - apply Nat.Div0.div_lt_upper_bound. lia.
  - apply Nat.mod_upper_bound. lia.
Qed.

Lemma hex_encode_underscore_inj l1 l2 (s1 s2 : string) :
  hex_encode l1 ++ "_" ++ s1 = hex_encode l2 ++ "_" ++ s2 ->
  l1 = l2 /\ s1 = s2.
Proof.
  revert l2. induction l1 as [|b l1 IH]; intros [|c l2]; cbn [hex_encode];
    rewrite ?append_cons; change ("" ++ ?x) with x;
    change ("_" ++ ?x) with (String "_" x); intros E.
  - by injection E.
  - injection E as E _. symmetry in E. by apply hexdigit_not_underscore in E.
  - injection E as E _. by apply hexdigit_not_underscore in E.
  - injection E as Hi Lo E.
    destruct (nibble_bounds b) as [? ?], (nibble_bounds c) as [? ?].
    apply hexdigit_inj in Hi, Lo; try done.
    rewrite (byte_of_nibbles b c Hi Lo).
    change (String "_" ?x) with ("_" ++ x) in E.
    destruct (IH l2 E) as [-> ->]. done.
Qed.

(** [filepath.Clean] on the table of its documentation and tests. *)
Lemma filepath_Clean_examples :
  filepath_Clean <$>
    [""; "abc"; "abc/"; "abc//def//ghi"; "//abc//"; "abc/./def"; "abc/.";
     "abc/def/../ghi/../jkl"; "abc/def/../.."; "/abc/def/../../..";
     "abc/def/../../../ghi/jkl/../../../mno"; "/../abc"; "abc/../../././../def"]
  = ["."; "abc"; "abc"; "abc/def/ghi"; "/abc"; "abc/def"; "abc";
     "abc/jkl"; "."; "/";
     "../../mno"; "/abc"; "../../def"].
Proof. reflexivity. Qed.

Lemma append_assoc (a b c : string) : (a ++ b) ++ c = a ++ (b ++ c).
Proof.
  induction a as [|x a IH]; [done|]. rewrite !append_cons. by rewrite IH.
Qed.

Lemma split_slash_nonempty s : split_slash s <> [].
Proof.
  destruct s as [|c s]; cbn; [done|].
  destruct (Ascii.eqb c "/"); [done|]. by destruct (split_slash s).
Qed.

(** Splitting at a separator splits the list of elements. *)
Lemma split_slash_app (a b : string) :
  split_slash (a ++ "/" ++ b) = (split_slash a ++ split_slash b)%list.
Proof.
  induction a as [|c a IH]; [reflexivity|].
  rewrite append_cons. cbn [split_slash]. rewrite IH.
  destruct (Ascii.eqb c "/"); [reflexivity|].
  pose proof (split_slash_nonempty a). by destruct (split_slash a).
Qed.

Lemma clean_element_name rooted out e :
  file_name_like e -> clean_element rooted out e = e :: out.
Proof.
  intros (_ & A & B & C). unfold clean_element.
  destruct (String.eqb_spec e ""); [done|].
  destruct (String.eqb_spec e "."); [done|].
  by destruct (String.eqb_spec e "..").
Qed.

Lemma join_slash_snoc l e :
  join_slash (l ++ [e])
  = match l with
    | [] => e
    | _ => join_slash l ++ "/" ++ e
    end.
Proof.
  induction l as [|x l IH]; [reflexivity|].
  destruct l as [|y l]; [reflexivity|].
  change (join_slash (((x :: y :: l) ++ [e])%list))
    with (x ++ "/" ++ join_slash ((y :: l) ++ [e])%list).
  rewrite IH.
  change (join_slash (x :: y :: l)) with (x ++ "/" ++ join_slash (y :: l)).
  by rewrite !append_assoc.
Qed.

Lemma HasPrefix_slash_app (dir rest : string) :
  dir <> "" -> strings_HasPrefix (dir ++ rest) "/" = strings_HasPrefix dir "/".
Proof.
  destruct dir as [|c dir]; [done|]. intros _. rewrite append_cons.
  unfold strings_HasPrefix. generalize (dir ++ rest). intros s.
  by destruct dir, s.
Qed.

Lemma eqb_app_nonempty (a b : string) :
  b <> "" -> String.eqb (a ++ b) "" = false.
Proof.
  intros N. apply String.eqb_neq. intros E.
  destruct a; [done|]. discriminate E.
Qed.

Lemma filepath_Clean_name e : file_name_like e -> filepath_Clean e = e.
Proof.
  intros N. pose proof N as (S & NE & _). unfold filepath_Clean.
  rewrite S. cbn [fold_left].
  rewrite clean_element_name by done. cbn [rev app join_slash].
  assert (strings_HasPrefix e "/" = false) as ->.
  { destruct e as [|c e]; [done|]. unfold strings_HasPrefix. cbn.
    cbn in S. destruct (Ascii.eqb_spec c "/") as [->|NC]; [done|].
    destruct e; cbn; rewrite ?andb_false_r; try done;
      by destruct (Ascii.eqb_spec c "/"). }
  change ("" ++ e) with e. by destruct e.
Qed.

(** [filepath.Join] of a directory and a file name: the cleaned
    directory, the separator unless the directory is empty, [.] or the
    root, and the file name as it is. *)
Lemma Path_string_name dir base :
  file_name_like base ->
  Path_string (filepath_Join dir base) = Join_prefix dir ++ base.
Proof.
  intros N. pose proof N as (S & NE & _).
  unfold Path_string, Join_prefix; cbn [pdir pbase filepath_Join].
  destruct (String.eqb_spec dir "") as [->|D].
  { destruct (String.eqb_spec base ""); [done|]. by apply filepath_Clean_name. }
  unfold filepath_Clean.
  rewrite (HasPrefix_slash_app dir ("/" ++ base) D), split_slash_app, S.
  rewrite fold_left_app. cbn [fold_left].
  rewrite clean_element_name by done. cbn [rev]. rewrite join_slash_snoc.
  set (out := rev _).
  set (root := if strings_HasPrefix dir "/" then "/" else "").
  assert (forall x, String.eqb (root ++ x ++ base) "" = false) as NZ.
  { intros x. rewrite <- append_assoc. by apply eqb_app_nonempty. }
  destruct out as [|y out].
  - specialize (NZ ""). change ("" ++ base) with base in NZ. rewrite NZ.
    by rewrite append_assoc.
  - specialize (NZ (join_slash (y :: out) ++ "/")).
    rewrite append_assoc in NZ. rewrite NZ. by rewrite !append_assoc.
Qed.

Lemma hexdigit_plain n :
  Ascii.eqb (hexdigit n) "/" = false /\ hexdigit n <> "."%char.
Proof. do 16 (destruct n as [|n]; [done|]). done. Qed.

Lemma split_slash_hex l s :
  split_slash s = [s] -> split_slash (hex_encode l ++ s) = [hex_encode l ++ s].
Proof.
  intros S. induction l as [|b l IH]; [done|].
  cbn [hex_encode]. rewrite !append_cons. cbn [split_slash].
  rewrite !(proj1 (hexdigit_plain _)), IH. done.
Qed.

(** The name of a key file is a file name. *)
Lemma key_file_name_like l sfx :
  sfx ∈ known_suffixes -> file_name_like (hex_encode l ++ "_" ++ sfx).
Proof.
  intros IN.
  assert (split_slash ("_" ++ sfx) = ["_" ++ sfx]) as S.
  { repeat (apply elem_of_cons in IN as [->|IN]); [done..|].
    by apply elem_of_nil in IN. }
  split; [by apply split_slash_hex|].
  destruct l as [|b l].
  - repeat (apply elem_of_cons in IN as [->|IN]); [done..|].
    by apply elem_of_nil in IN.
  - cbn [hex_encode]. rewrite !append_cons.
    pose proof (proj2 (hexdigit_plain (Byte.to_nat b / 16))) as A.
    pose proof (proj2 (hexdigit_plain (Byte.to_nat b mod 16))) as B.
    repeat split; try done; intros [= E1 E2]; done.
Qed.

(** X12.  The path of a key file determines the identifier and the
    suffix.  For every path of the store, empty or not, cleaned or not,
    and each of the four suffixes the store writes, the string that
    [filepath.Join] returns in [getPathForAlias] is a prefix fixed by
    the path of the store, followed by the hexadecimal identifier, an
    underscore and the suffix, which the cleaning leaves as they are.
    Hence two identifiers are given the same path only if they have
    the same bytes and the suffixes are the same: keys of different
    identifiers are never written to the same file. *)
Theorem getPathForAlias_injective ks a b s1 s2 :
  s1 ∈ known_suffixes ->
  s2 ∈ known_suffixes ->
  Path_string (getPathForAlias ks (hex_EncodeToString a) s1)
  = Join_prefix (path ks) ++ hex_EncodeToString a ++ "_" ++ s1
  /\ (Path_string (getPathForAlias ks (hex_EncodeToString a) s1)
      = Path_string (getPathForAlias ks (hex_EncodeToString b) s2) ->
      content a = content b /\ s1 = s2).
Proof.
  intros I1 I2. unfold getPathForAlias, hex_EncodeToString.
  rewrite !Path_string_name by by apply key_file_name_like.
  split; [done|]. intros E. apply (inj (String.app _)) in E.
  by apply hex_encode_underscore_inj.
Qed.

Lemma getPathForAlias_injective_witness :
  Path_string (getPathForAlias (Demo.store "/var//ks/" false None)
                 (hex_EncodeToString (Some [xab; x12])) "sk")
  = "/var/ks/ab12_sk"
  /\ Path_string (getPathForAlias (Demo.store "" false None)
                    (hex_EncodeToString (Some [xab; x12])) "sk")
     = "ab12_sk".
Proof.
  split.
  - rewrite (proj1 (getPathForAlias_injective (Demo.store "/var//ks/" false None)
                      (Some [xab; x12]) (Some [xab; x12]) "sk" "sk"
                      ltac:(set_solver) ltac:(set_solver))).
    reflexivity.
  - rewrite (proj1 (getPathForAlias_injective (Demo.store "" false None)
                      (Some [xab; x12]) (Some [xab; x12]) "sk" "sk"
                      ltac:(set_solver) ltac:(set_solver))).
    reflexivity.
Defined.

(** ** Further properties: [Init] and [NewFileBasedKeyStore] *)

(** An [Init] that returns no error leaves a directory at the path: the
    one it found, with the disk as it was, or a new and empty one. *)
Lemma Init_leaves_directory ks pwd0 path0 ro w :
  isOpen ks = false ->
  fst (fst (Init ks pwd0 path0 ro w)) = None ->
  exists dperm entries,
    nodes (snd (Init ks pwd0 path0 ro w)) !! path0
    = Some (Directory dperm entries)
    /\ ((nodes w !! path0 = Some (Directory dperm entries)
         /\ nodes (snd (Init ks pwd0 path0 ro w)) = nodes w)
        \/ (nodes w !! path0 = None
            /\ dperm = Z.ldiff mode_0755 (umask w) /\ entries = ∅)).
Proof.
  intros O. unfold Init.
  destruct (String.length path0 =? 0)%nat; [done|]. rewrite O.
  unfold bind, dirExists, dirEmpty, createKeyStore, openKeyStore, bind,
    os_Stat, os_Open, File_Readdir, os_MkdirAll, ret, stat, open, readdir; cbn.
  destruct (nodes w !! path0) as [[dperm entries|]|] eqn:N;
    repeat (match goal with
            | |- context [faults w ?c] => destruct (faults w c) as [[]|] eqn:?
            | |- context [take ?n ?l] => destruct (take n l)
            end; cbn; autorewrite with world; rewrite ?N; cbn);
    try done; intros _;
    first [ exists dperm, entries; split; [done|]; by left
          | eexists _, _; split; [apply lookup_insert_eq|]; by right ].
Qed.

(** X13.  What [NewFileBasedKeyStore] returns.  A store is returned in
    every case, also with an error.  For every world, injected errors
    included: when no error is returned, the path is not empty, the
    store is open and holds the path, the flag and a copy of the
    password, and the path names a directory, which is the one that
    was there, the disk being as it was, or a new and empty one of mode
    [0755] less the umask where nothing was; when an error is
    returned, the store is not open. *)
Theorem NewFileBasedKeyStore_postcondition pwd0 path0 ro w :
  let r := NewFileBasedKeyStore pwd0 path0 ro w in
  (snd (fst r) = None ->
   path0 <> ""
   /\ fst (fst r) = {| path := path0; readOnly := ro; isOpen := true;
                       pwd := clone pwd0 |}
   /\ exists dperm entries,
        nodes (snd r) !! path0 = Some (Directory dperm entries)
        /\ ((nodes w !! path0 = Some (Directory dperm entries)
             /\ nodes (snd r) = nodes w)
            \/ (nodes w !! path0 = None
                /\ dperm = Z.ldiff mode_0755 (umask w) /\ entries = ∅)))
  /\ (snd (fst r) <> None -> isOpen (fst (fst r)) = false).
Proof.
  intros r. subst r. unfold NewFileBasedKeyStore, bind, ret.
  destruct (String.length path0 =? 0)%nat eqn:P.
  { unfold Init. rewrite P. cbn. by split. }
  pose proof (Init_closed new_fileBasedKeyStore pwd0 path0 ro w eq_refl P) as C.
  pose proof (Init_leaves_directory new_fileBasedKeyStore pwd0 path0 ro w eq_refl)
    as D.
  cbn zeta in C.
  destruct (Init new_fileBasedKeyStore pwd0 path0 ro w) as [[err ks] w'].
  cbn in C, D |- *. split.
  - intros ->. split; [by destruct path0|]. split; [by rewrite C|]. by apply D.
  - intros E. rewrite C. cbn. by rewrite bool_decide_eq_false_2.
Qed.

Lemma NewFileBasedKeyStore_postcondition_witness :
  let w := Demo.world {["/etc/passwd" := NotDirectory]} in
  isOpen (fst (fst (NewFileBasedKeyStore None "/etc/passwd" false w))) = false
  /\ fst (fst (NewFileBasedKeyStore (Some [x70]) "/ks" true w))
     = {| path := "/ks"; readOnly := true; isOpen := true; pwd := Some [x70] |}.
Proof.
  intros w.
  destruct (NewFileBasedKeyStore_postcondition None "/etc/passwd" false w)
    as (_ & E).
  destruct (NewFileBasedKeyStore_postcondition (Some [x70]) "/ks" true w)
    as (S & _).
  split.
  - apply E. discriminate.
  - apply S. reflexivity.
Defined.

(** X14.  [Init] on a directory that exists and is empty.  The mode
    [0755] is not imposed on it: for a store that is not open and a
    non-empty path, the disk is left as it was, whatever errors are
    injected.  When none is injected, [Init] finds the directory empty
    by [Stat], [Open] and [Readdir(1)], calls [MkdirAll] on it all the
    same, which has nothing to do, and opens the store.  When an error
    is injected into that [MkdirAll] alone, [Init] fails with it and
    the store stays closed, although the directory is there. *)
Theorem Init_empty_directory ks pwd0 path0 ro dperm w :
  path0 <> "" ->
  isOpen ks = false ->
  nodes w !! path0 = Some (Directory dperm ∅) ->
  let r := Init ks pwd0 path0 ro w in
  let called :=
    logged (SysMkdirAll path0 mode_0755)
      (logged (SysReaddir path0 1)
         (logged (SysOpen path0) (logged (SysStat path0) w))) in
  nodes (snd r) = nodes w
  /\ ((forall c, faults w c = None) ->
      r = (None,
           {| path := path0; readOnly := ro; isOpen := true;
              pwd := clone pwd0 |},
           called))
  /\ (forall e,
        (forall c, c <> SysMkdirAll path0 mode_0755 -> faults w c = None) ->
        faults w (SysMkdirAll path0 mode_0755) = Some e ->
        r = (Some (PathError "mkdir" path0 e),
             {| path := path0; readOnly := ro; isOpen := false;
                pwd := clone pwd0 |},
             called)).
Proof.
  intros P O N r called. subst r called.
  split; [by eapply Init_frame|].
  assert (forall m,
            (forall c, c <> SysMkdirAll path0 mode_0755 -> faults w c = None) ->
            faults w (SysMkdirAll path0 mode_0755) = m ->
            Init ks pwd0 path0 ro w
            = (match m with
               | Some e => Some (PathError "mkdir" path0 e)
               | None => None
               end,
               {| path := path0; readOnly := ro;
                  isOpen := match m with Some _ => false | None => true end;
                  pwd := clone pwd0 |},
               logged (SysMkdirAll path0 mode_0755)
                 (logged (SysReaddir path0 1)
                    (logged (SysOpen path0) (logged (SysStat path0) w)))))
    as R.
  { intros m F M. unfold Init. rewrite (length_nonempty _ P), O.
    unfold bind, dirExists, dirEmpty, createKeyStore, openKeyStore, bind,
      os_Stat, os_Open, File_Readdir, os_MkdirAll, ret, stat, open, readdir;
      cbn.
    rewrite (F (SysStat path0)) by done. rewrite N. cbn.
    autorewrite with world. rewrite (F (SysOpen path0)) by done. rewrite N. cbn.
    autorewrite with world. rewrite (F (SysReaddir path0 1)) by done.
    rewrite N. unfold listing. rewrite map_to_list_empty. cbn.
    rewrite take_nil. cbn.
    autorewrite with world. rewrite M. destruct m; [done|].
    by rewrite N. }
  split.
  - intros F. by apply (R None).
  - intros e F M. by apply (R (Some e)).
Qed.

Lemma Init_empty_directory_witness :
  let w := Demo.world {["/ks" := Directory 448 ∅]} in
  let r := Init new_fileBasedKeyStore None "/ks" false w in
  fst (fst r) = None
  /\ nodes (snd r) !! "/ks" = Some (Directory 448 ∅)
  /\ trace (snd r)
     = [SysMkdirAll "/ks" mode_0755; SysReaddir "/ks" 1; SysOpen "/ks";
        SysStat "/ks"].
Proof.
  intros w r.
  destruct (Init_empty_directory new_fileBasedKeyStore None "/ks" false 448 w
              ltac:(discriminate) eq_refl ltac:(reflexivity)) as (_ & S & _).
  subst r. rewrite (S (fun _ => eq_refl)). by repeat split.
Defined.

(** X15.  [Init] takes over its arguments before it looks at the disk.
    On a store that is not open and with a non-empty path, whatever
    the world and whether or not the call fails, the store afterwards
    has the new path, the new read-only flag and a fresh non-nil copy
    of the password (the empty slice for a nil password); it is open
    exactly when no error is returned.  After a failed [Init] the
    store thus reports the new flag by [ReadOnly] although it is not
    open. *)
Theorem Init_takes_arguments ks pwd0 path0 ro w :
  isOpen ks = false ->
  path0 <> "" ->
  let r := Init ks pwd0 path0 ro w in
  path (snd (fst r)) = path0
  /\ ReadOnly (snd (fst r)) = ro
  /\ pwd (snd (fst r)) = Some (content pwd0)
  /\ (isOpen (snd (fst r)) = true <-> fst (fst r) = None).
Proof.
  intros O P r. subst r.
  pose proof (Init_closed ks pwd0 path0 ro w O (length_nonempty _ P)) as E.
  cbn zeta in E. rewrite E. cbn. repeat split; try done.
  - intros B. by apply bool_decide_eq_true in B.
  - intros B. by apply bool_decide_eq_true.
Qed.

Lemma Init_takes_arguments_witness :
  let w := Demo.world {["/etc/passwd" := NotDirectory]} in
  let r := Init new_fileBasedKeyStore None "/etc/passwd" true w in
  fst (fst r) <> None
  /\ ReadOnly (snd (fst r)) = true
  /\ pwd (snd (fst r)) = Some [].
Proof.
  intros w r.
  destruct (Init_takes_arguments new_fileBasedKeyStore None "/etc/passwd" true w
              eq_refl ltac:(discriminate)) as (_ & R & P & _).
  split; [discriminate|]. split; [exact R | exact P].
Defined.

(** ** Further properties: the importers *)

Section ImporterEdges.
Context `{Collaborators}.

(** X16.  The three SM2 importers return a key in exactly these cases:
    the PKIX importer on a byte slice of non-zero length that the PKIX
    parser accepts, giving the public key parsed; the private-key
    importer on a byte slice of non-zero length that the PKCS#8 parser
    accepts, giving the private key parsed; the Go-key importer on an
    [*sm2.PublicKey], giving that key.  The keys are of the types of
    the importers' package.  A nil and an empty slice are refused
    alike.  A failure of the PKCS#8 parser is reported in the words of
    the public-key importer, around the parser's error. *)
Theorem sm2_importers_return h raw opts k :
  (KeyImport h sm2PKIXPublicKeyImportOptsKeyImporter raw opts = Returns (Ok k)
   <-> exists der pk,
         raw = any_bytes der /\ len der <> 0
         /\ parsePKIXSM2PublicKey der = Ok pk /\ k = gm_sm2PublicKey pk)
  /\ (KeyImport h sm2PrivateKeyImportOptsKeyImporter raw opts = Returns (Ok k)
      <-> exists der sk,
            raw = any_bytes der /\ len der <> 0
            /\ parsePKCS8SM2PrivateKey der = Ok sk /\ k = gm_sm2PrivateKey sk)
  /\ (KeyImport h sm2GoPublicKeyImportOptsKeyImporter raw opts = Returns (Ok k)
      <-> exists pk, raw = any_sm2_PublicKey pk /\ k = gm_sm2PublicKey pk)
  /\ (forall der err,
        raw = any_bytes der -> len der <> 0 ->
        parsePKCS8SM2PrivateKey der = Fail err ->
        KeyImport h sm2PrivateKeyImportOptsKeyImporter raw opts
        = Returns (Fail (errorString
                           ("Failed converting PKIX to SM2 public key ["
                            ++ Error err ++ "]")))).
Proof.
  split; [|split; [|split]].
  - destruct raw; cbn; try (split; [done | by intros (? & ? & ? & _)]).
    destruct (Nat.eqb_spec (len b) 0) as [Z|NZ].
    { split; [done|]. intros (der & pk & [= <-] & ? & _). done. }
    destruct (parsePKIXSM2PublicKey b) as [pk|e] eqn:P.
    + split; [intros [= <-]; eauto 10|].
      intros (der & pk' & [= <-] & _ & P' & ->). congruence.
    + split; [done|]. intros (der & pk' & [= <-] & _ & P' & _). congruence.
  - destruct raw; cbn; try (split; [done | by intros (? & ? & ? & _)]).
    destruct (Nat.eqb_spec (len b) 0) as [Z|NZ].
    { split; [done|]. intros (der & pk & [= <-] & ? & _). done. }
    destruct (parsePKCS8SM2PrivateKey b) as [sk|e] eqn:P.
    + split; [intros [= <-]; eauto 10|].
      intros (der & sk' & [= <-] & _ & P' & ->). congruence.
    + split; [done|]. intros (der & sk' & [= <-] & _ & P' & _). congruence.
  - destruct raw; cbn; try (split; [done | by intros (? & ? & _)]).
    split; [intros [= <-]; eauto|]. by intros (pk & [= <-] & ->).
  - intros der err -> NZ P. cbn. apply Nat.eqb_neq in NZ. by rewrite NZ, P.
Qed.

(** X17.  The importers do not look at the options they are given,
    except that the certificate importer passes on the ephemeral flag:
    each of the four direct importers returns the same result under
    any two options, of whatever type, the nil options included, and
    the certificate importer returns the same result under any two
    options with the same ephemeral flag. *)
Theorem KeyImport_ignores_options h ki raw o1 o2 :
  (ki ∈ [sm4ImportKeyOptsKeyImporter; sm2PKIXPublicKeyImportOptsKeyImporter;
         sm2PrivateKeyImportOptsKeyImporter; sm2GoPublicKeyImportOptsKeyImporter] ->
   KeyImport h ki raw o1 = KeyImport h ki raw o2)
  /\ (forall a, ki = x509PublicKeyImportOptsKeyImporter a ->
      Ephemeral o1 = Ephemeral o2 ->
      KeyImport h ki raw o1 = KeyImport h ki raw o2).
Proof.
  split.
  - intros IN.
    repeat (apply elem_of_cons in IN as [->|IN]);
      [| | | |by apply elem_of_nil in IN]; by destruct raw.
  - intros a -> E. destruct raw as [| | | | | |pk| |]; try reflexivity.
    destruct pk; try reflexivity. cbn. by rewrite E.
Qed.

(** An importer of the source, given a public key and not a
    certificate, returns. *)
Lemma KeyImport_public_key_returns h ki pk opts :
  (forall f, ki <> otherKeyImporter f) ->
  exists r, KeyImport h ki (any_sm2_PublicKey pk) opts = Returns r.
Proof. intros N. destruct ki; cbn; eauto. by destruct (N method). Qed.

(** X18.  When the certificate importer panics.  Let the importer that
    the registry at [a] holds for the type
    [*bccsp.SM2GoPublicKeyImportOpts], if it holds one, be an importer
    of the source.  Then the certificate importer whose field points
    to [a] panics in exactly these cases: on the nil pointer to a
    certificate; and on a certificate with an SM2 public key when the
    method [Ephemeral] of the options panics (the nil options, a nil
    pointer to an options struct), when there is no registry at [a]
    (the field is nil) or when the registry holds no importer for that
    type.  On every other raw material it returns, without consulting
    the registry or the options.  A registry that holds the
    certificate importer itself for that type makes the import fail
    with the wrong-material error; it does not loop. *)
Theorem x509_KeyImport_panics_iff h a raw opts :
  (forall csp ki,
     h !! a = Some csp ->
     KeyImporters csp !! reflect_TypeOf (SM2GoPublicKeyImportOpts false) = Some ki ->
     forall f, ki <> otherKeyImporter f) ->
  (KeyImport h (x509PublicKeyImportOptsKeyImporter a) raw opts = Panics
   <-> raw = any_nil_x509_Certificate
       \/ exists pk,
            raw = any_x509_Certificate (any_sm2_PublicKey pk)
            /\ (Ephemeral opts = Panics
                \/ forall csp, h !! a = Some csp ->
                     KeyImporters csp
                       !! reflect_TypeOf (SM2GoPublicKeyImportOpts false)
                     = None))
  /\ (forall csp b pk t,
        raw = any_x509_Certificate (any_sm2_PublicKey pk) ->
        Ephemeral opts = Returns t ->
        h !! a = Some csp ->
        KeyImporters csp !! reflect_TypeOf (SM2GoPublicKeyImportOpts false)
        = Some (x509PublicKeyImportOptsKeyImporter b) ->
        KeyImport h (x509PublicKeyImportOptsKeyImporter a) raw opts
        = Returns (Fail (errors_New
                           "Invalid raw material. Expected *x509.Certificate."))).
Proof.
  intros SRC. split.
  - destruct raw as [| | | | | |pk| |];
      try (split; [done | by intros [?|(? & ? & _)]]).
    2:{ split; [by left | done]. }
    destruct pk; try (split; [done | by intros [?|(? & ? & _)]]).
    cbn. destruct (h !! a) as [csp|] eqn:A.
    + destruct (KeyImporters csp !! _) as [ki|] eqn:K.
      * destruct (Ephemeral opts) as [t|] eqn:E.
        -- destruct (KeyImport_public_key_returns h ki k
                       (SM2GoPublicKeyImportOpts t)
                       (SRC csp ki eq_refl K)) as [r R].
           cbn in R. rewrite R. split; [done|].
           intros [?|(pk & _ & [?|NONE])]; [done|done|].
           specialize (NONE csp eq_refl). congruence.
        -- split; [|done]. intros _. right. exists k. split; [done|]. by left.
      * split; [|done]. intros _. right. exists k. split; [done|]. right.
        by intros ? [= <-].
    + split; [|done]. intros _. right. exists k. split; [done|]. right.
      by intros ? [=].
  - intros csp b pk t -> E A K. cbn. cbn in K. by rewrite A, K, E.
Qed.

(** The keys that the importers of the source build are of the types of
    their own package. *)
Lemma KeyImport_direct_key h ki raw opts k :
  ki ∈ [sm4ImportKeyOptsKeyImporter; sm2PKIXPublicKeyImportOptsKeyImporter;
        sm2PrivateKeyImportOptsKeyImporter; sm2GoPublicKeyImportOptsKeyImporter] ->
  KeyImport h ki raw opts = Returns (Ok k) ->
  of_package_gm k.
Proof.
  intros IN.
  repeat (apply elem_of_cons in IN as [->|IN]);
    [| | | |by apply elem_of_nil in IN]; destruct raw; cbn; try done.
  - destruct b; [|done]. destruct (negb _); [done|]. by intros [= <-].
  - destruct (len b =? 0)%nat; [done|].
    destruct (parsePKIXSM2PublicKey b); [|done]. by intros [= <-].
  - destruct (len b =? 0)%nat; [done|].
    destruct (parsePKCS8SM2PrivateKey b); [|done]. by intros [= <-].
  - by intros [= <-].
Qed.

(** X19.  From the importers to the store.  The importers are of
    package [gm] and the store of package [sw], whose type switch
    names its own key types.  A key returned by one of the four direct
    importers, or by the certificate importer through a registry that
    holds one of them for the type [*bccsp.SM2GoPublicKeyImportOpts],
    is of a type of package [gm]; [StoreKey] of a writable store
    refuses it with the error for a type it does not know, and leaves
    the world as it was: nothing is encoded or written. *)
Theorem imported_key_not_stored h ki raw opts k ks w :
  ki ∈ [sm4ImportKeyOptsKeyImporter; sm2PKIXPublicKeyImportOptsKeyImporter;
        sm2PrivateKeyImportOptsKeyImporter; sm2GoPublicKeyImportOptsKeyImporter]
  \/ (exists a csp direct,
        ki = x509PublicKeyImportOptsKeyImporter a
        /\ h !! a = Some csp
        /\ KeyImporters csp !! reflect_TypeOf (SM2GoPublicKeyImportOpts false)
           = Some direct
        /\ direct ∈ [sm4ImportKeyOptsKeyImporter;
                     sm2PKIXPublicKeyImportOptsKeyImporter;
                     sm2PrivateKeyImportOptsKeyImporter;
                     sm2GoPublicKeyImportOptsKeyImporter]) ->
  KeyImport h ki raw opts = Returns (Ok k) ->
  readOnly ks = false ->
  of_package_gm k
  /\ StoreKey ks (Some k) w
     = (Some (errorString ("key type not reconigned [" ++ fmt_s k ++ "]")), w).
Proof.
  intros SRC I RO.
  assert (of_package_gm k) as G.
  { destruct SRC as [IN|(a & csp & direct & -> & A & K & IN)].
    - by eapply KeyImport_direct_key.
    - destruct raw as [| | | | | |pk| |]; try done.
      destruct pk; try done. cbn in I, K. rewrite A, K in I.
      destruct (Ephemeral opts) as [t|]; [|done].
      repeat (apply elem_of_cons in IN as [->|IN]); try done;
        [by injection I as <- | by apply elem_of_nil in IN]. }
  split; [exact G|]. unfold StoreKey. rewrite RO. by destruct k.
Qed.

End ImporterEdges.

Lemma sm2_importers_return_witness :
  KeyImport (H := Demo.collaborators) ∅ sm2PKIXPublicKeyImportOptsKeyImporter
    (any_bytes (Some [x00; xab; x00; x05])) (SM2PublicKeyImportOpts false)
  = Returns (Ok (gm_sm2PublicKey {| sm2_X := 171; sm2_Y := 5 |}))
  /\ KeyImport (H := Demo.collaborators) ∅ sm2PrivateKeyImportOptsKeyImporter
       (any_bytes (Some [x00])) (SM2PrivateKeyImportOpts false)
     = Returns (Fail (errorString
          "Failed converting PKIX to SM2 public key [failed parsing DER]")).
Proof.
  split.
  - apply (proj1 (@sm2_importers_return Demo.collaborators ∅
                    (any_bytes (Some [x00; xab; x00; x05]))
                    (SM2PublicKeyImportOpts false)
                    (gm_sm2PublicKey {| sm2_X := 171; sm2_Y := 5 |}))).
    exists (Some [x00; xab; x00; x05]), {| sm2_X := 171; sm2_Y := 5 |}.
    repeat split. discriminate.
  - apply (proj2 (proj2 (proj2 (@sm2_importers_return Demo.collaborators ∅
                    (any_bytes (Some [x00])) (SM2PrivateKeyImportOpts false)
                    (foreignKey ""))))
             (Some [x00]) (errors_New "failed parsing DER"));
      [reflexivity | discriminate | reflexivity].
Defined.

Lemma KeyImport_ignores_options_witness :
  KeyImport (H := Demo.collaborators) ∅ sm4ImportKeyOptsKeyImporter
    (any_bytes (Some Demo.sixteen)) (X509PublicKeyImportOpts true)
  = KeyImport (H := Demo.collaborators) ∅ sm4ImportKeyOptsKeyImporter
      (any_bytes (Some Demo.sixteen)) (SM4ImportKeyOpts false).
Proof.
  apply (proj1 (@KeyImport_ignores_options Demo.collaborators ∅
                  sm4ImportKeyOptsKeyImporter (any_bytes (Some Demo.sixteen))
                  (X509PublicKeyImportOpts true) (SM4ImportKeyOpts false))).
  by repeat constructor.
Defined.

Lemma x509_KeyImport_panics_iff_witness :
  let h : gmap nat CSP := {[ 7 := Demo.registry 7 ]} in
  let cert := any_x509_Certificate
                (any_sm2_PublicKey {| sm2_X := 171; sm2_Y := 5 |}) in
  KeyImport (H := Demo.collaborators) h (x509PublicKeyImportOptsKeyImporter 7)
    cert nil_KeyImportOpts
  = Panics
  /\ KeyImport (H := Demo.collaborators) h (x509PublicKeyImportOptsKeyImporter 7)
       any_nil_x509_Certificate (X509PublicKeyImportOpts false)
     = Panics
  /\ KeyImport (H := Demo.collaborators) h (x509PublicKeyImportOptsKeyImporter 8)
       cert (X509PublicKeyImportOpts false)
     = Panics.
Proof.
  intros h cert.
  assert (forall a csp ki,
            h !! a = Some csp ->
            KeyImporters csp !! reflect_TypeOf (SM2GoPublicKeyImportOpts false)
            = Some ki ->
            forall f, ki <> otherKeyImporter f) as SRC.
  { intros a csp ki A K f. subst h.
    destruct (decide (a = 7)) as [->|NE].
    - rewrite lookup_singleton_eq in A. injection A as <-.
      cbn in K. vm_compute in K. by injection K as <-.
    - by rewrite lookup_singleton_ne in A. }
  split; [|split].
  - apply (proj1 (@x509_KeyImport_panics_iff Demo.collaborators h 7 cert
                    nil_KeyImportOpts (SRC 7))).
    right. eexists. split; [reflexivity|]. by left.
  - apply (proj1 (@x509_KeyImport_panics_iff Demo.collaborators h 7
                    any_nil_x509_Certificate (X509PublicKeyImportOpts false)
                    (SRC 7))).
    by left.
  - apply (proj1 (@x509_KeyImport_panics_iff Demo.collaborators h 8 cert
                    (X509PublicKeyImportOpts false) (SRC 8))).
    right. eexists. split; [reflexivity|]. right. intros csp A.
    subst h. by rewrite lookup_singleton_ne in A.
Defined.

Lemma imported_key_not_stored_witness :
  let h : gmap nat CSP := {[ 7 := Demo.registry 7 ]} in
  let w := Demo.world {["/ks" := Directory 493 ∅]} in
  let ks := Demo.store "/ks" false (Some [x70; x77]) in
  let pk := {| sm2_X := 171; sm2_Y := 5 |} in
  KeyImport (H := Demo.collaborators) h (x509PublicKeyImportOptsKeyImporter 7)
    (any_x509_Certificate (any_sm2_PublicKey pk)) (X509PublicKeyImportOpts false)
  = Returns (Ok (gm_sm2PublicKey pk))
  /\ StoreKey (H := Demo.collaborators) ks (Some (gm_sm2PublicKey pk)) w
     = (Some (errorString "key type not reconigned [&{}]"), w)
  /\ fst (StoreKey (H := Demo.collaborators) ks (Some (sm2PublicKey pk)) w) = None.
Proof.
  intros h w ks pk. split; [reflexivity|]. split; [|reflexivity].
  apply (@imported_key_not_stored Demo.collaborators h
           (x509PublicKeyImportOptsKeyImporter 7)
           (any_x509_Certificate (any_sm2_PublicKey pk))
           (X509PublicKeyImportOpts false) (gm_sm2PublicKey pk) ks w).
  - right. exists 7, (Demo.registry 7), sm2GoPublicKeyImportOptsKeyImporter.
    split; [reflexivity|]. split; [reflexivity|]. split; [reflexivity|].
    set_solver.
  - reflexivity.
  - reflexivity.
Defined.

(** ** Further properties: the checks of the directory *)

(** X20.  The two checks that [Init] makes of the path.  With no error
    injected, [dirExists] answers whether anything is at the path and
    returns no error, and [dirEmpty] answers true exactly for a
    directory without entries, false without error for a directory
    with entries, and fails for a path at which nothing is or which is
    no directory.  An error injected into [Stat] counts as absence
    when it is the no-such-file error and is returned otherwise.
    Neither check changes the disk. *)
Theorem directory_checks p w :
  (forall e, faults w (SysStat p) = Some e ->
     fst (dirExists p w)
     = (false, if bool_decide (e = ENOENT) then None
               else Some (PathError "stat" p e)))
  /\ nodes (snd (dirExists p w)) = nodes w
  /\ nodes (snd (dirEmpty p w)) = nodes w
  /\ ((forall c, faults w c = None) ->
      fst (dirExists p w) = (bool_decide (is_Some (nodes w !! p)), None)
      /\ fst (dirEmpty p w)
         = match nodes w !! p with
           | Some (Directory _ entries) => (bool_decide (entries = ∅), None)
           | Some NotDirectory =>
               (false, Some (PathError "readdirent" p ENOTDIR))
           | None => (false, Some (PathError "open" p ENOENT))
           end).
Proof.
  split; [|split; [|split]].
  - intros e F. unfold dirExists, bind, os_Stat, stat. rewrite F. cbn.
    by destruct e.
  - unfold dirExists, bind, os_Stat. by destruct (stat w p) as [[]|]; cbn;
      repeat case_match.
  - unfold dirEmpty, bind, os_Open, File_Readdir.
    destruct (open w p); cbn; [|done].
    by destruct (readdir _ _ _) as [? [[]|]].
  - intros F. split.
    + unfold dirExists, bind, os_Stat, stat. rewrite F.
      by destruct (nodes w !! p) eqn:N.
    + unfold dirEmpty, bind, os_Open, File_Readdir, open, readdir. rewrite F.
      destruct (nodes w !! p) as [[dperm entries|]|] eqn:N; cbn;
        autorewrite with world; rewrite ?F, ?N; try done.
      destruct (listing entries) as [|f l] eqn:L; cbn.
      * apply listing_nil in L. by rewrite bool_decide_eq_true_2.
      * rewrite bool_decide_eq_false_2; [done|]. intros ->.
        unfold listing in L. by rewrite map_to_list_empty in L.
Qed.

Lemma directory_checks_witness :
  let w := Demo.world {["/ks" := Directory 493 ∅; "/etc/passwd" := NotDirectory]} in
  fst (dirEmpty "/ks" w) = (true, None)
  /\ fst (dirEmpty "/etc/passwd" w)
     = (false, Some (PathError "readdirent" "/etc/passwd" ENOTDIR))
  /\ fst (dirExists "/nowhere" w) = (false, None).
Proof.
  intros w.
  destruct (directory_checks "/ks" w) as (_ & _ & _ & K).
  destruct (directory_checks "/etc/passwd" w) as (_ & _ & _ & P).
  destruct (directory_checks "/nowhere" w) as (_ & _ & _ & N).
  split; [|split].
  - exact (proj2 (K (fun _ => eq_refl))).
  - exact (proj2 (P (fun _ => eq_refl))).
  - exact (proj1 (N (fun _ => eq_refl))).
Defined.

(** ** Further properties: keys outlive the store value *)

(** [Init] of a store that is not open, on a directory, with no error
    injected. *)
Lemma Init_on_directory ks pwd0 path0 ro dperm entries w :
  isOpen ks = false ->
  path0 <> "" ->
  (forall c, faults w c = None) ->
  nodes w !! path0 = Some (Directory dperm entries) ->
  let r := Init ks pwd0 path0 ro w in
  fst r = (None, {| path := path0; readOnly := ro; isOpen := true;
                    pwd := clone pwd0 |})
  /\ nodes (snd r) = nodes w
  /\ faults (snd r) = faults w.
Proof.
  intros O P F N r. subst r. unfold Init. rewrite (length_nonempty _ P), O.
  unfold bind, dirExists, dirEmpty, createKeyStore, openKeyStore, bind,
    os_Stat, os_Open, File_Readdir, os_MkdirAll, ret, stat, open, readdir; cbn.
  repeat first [rewrite F | rewrite N | progress cbn
               | progress autorewrite with world].
  destruct (take _ (listing entries)) as [|f l];
    repeat first [rewrite F | rewrite N | progress cbn
                 | progress autorewrite with world];
    done.
Qed.

Section Reopen.
Context `{Collaborators}.

(** X21.  Keys outlive the store value that wrote them.  Let a store on
    an existing directory, holding a copy of the password [pwd0], store
    a key of one of the five variants other than SM4 under the
    conditions of the round trip.  Then a store made afterwards by
    [NewFileBasedKeyStore] with the same password and path, read-only
    or not, is returned without error, and its [GetKey] returns a key
    equal to the one stored. *)
Theorem keys_survive_reopening pwd0 path0 ro k dperm entries w :
  path0 <> "" ->
  (forall c, faults w c = None) ->
  nodes w !! path0 = Some (Directory dperm entries) ->
  let ks := {| path := path0; readOnly := false; isOpen := true;
               pwd := clone pwd0 |} in
  len (SKI k) <> 0 ->
  codec_restores (clone pwd0) k ->
  sole_prefix entries (hex_EncodeToString (SKI k)) (file_name k) ->
  let stored := StoreKey ks (Some k) w in
  let reopened := NewFileBasedKeyStore pwd0 path0 ro (snd stored) in
  fst stored = None
  /\ snd (fst reopened) = None
  /\ exists k', fst (GetKey (fst (fst reopened)) (SKI k) (snd reopened)) = Ok k'
                /\ Key_equal k k' = true.
Proof.
  intros P F N ks L C SOLE stored reopened. subst stored reopened.
  assert (readOnly ks = false) as RO by done.
  assert (nodes w !! path ks = Some (Directory dperm entries)) as N0 by done.
  assert (exists pem, record_of (pwd ks) k = Some (Ok pem)
                      /\ suffix_of_key k ∈ ["sk"; "pk"; "key"]
                      /\ exists k', decoded ks (SKI k) (suffix_of_key k) (content pem)
                                    = Ok k' /\ Key_equal k k' = true)
    as (pem & R & IN & k' & D & EQ).
  { assert (forall k0, Key_equal k0 k0 = true) as REFL.
    { intros k0. unfold Key_equal, bytes_Equal.
      rewrite bool_decide_eq_true_2 by done. by rewrite !eqb_reflx. }
    destruct k as [kk|kk|kk|kk|raw e|raw e|t|kk|kk|raw e]; cbn in C; try done;
      [destruct C as (pem & ENC & DEC)..|destruct C as (pem & key & ENC & DEC & ID)];
      exists pem; (split; [cbn; by rewrite ENC|]);
      (split; [by repeat constructor|]);
      unfold decoded; cbn [suffix_of_key String.eqb Ascii.eqb Bool.eqb andb pwd ks];
      rewrite DEC; eexists; (split; [reflexivity|]); try apply REFL.
    unfold Key_equal, bytes_Equal. by rewrite bool_decide_eq_true_2. }
  rewrite (StoreKey_cases _ _ _ RO), R. cbn [fst snd].
  destruct (WriteFile_cases (filepath_Join (path ks) (file_name k)) pem
              mode_0600 w) as [E|(dp & es & fperm & _ & N' & _ & E & W)].
  { exfalso. apply E. unfold ioutil_WriteFile. rewrite !F. cbn. rewrite N.
    destruct (entries !! file_name k) as [[]|] eqn:X; try done.
    destruct (SOLE _ _ X (HasPrefix_append _ _)) as (_ & ? & ? & ?). done. }
  cbn in N'. rewrite N in N'. injection N' as <- <-.
  rewrite E. split; [done|].
  set (w1 := snd (ioutil_WriteFile _ pem mode_0600 w)) in *.
  set (entries1 := <[file_name k := Regular fperm (content pem)]> entries) in *.
  assert (nodes w1 !! path0 = Some (Directory dperm entries1)) as N1.
  { rewrite W. cbn. by rewrite lookup_insert_eq. }
  assert (forall c, faults w1 c = None) as F1.
  { intros c. rewrite W. apply F. }
  destruct (Init_on_directory new_fileBasedKeyStore pwd0 path0 ro dperm entries1 w1
              eq_refl P F1 N1) as (I & N2 & F2).
  unfold NewFileBasedKeyStore, bind, ret.
  destruct (Init new_fileBasedKeyStore pwd0 path0 ro w1) as [[err ks2] w2].
  cbn in I, N2, F2 |- *. injection I as -> ->. split; [done|].
  exists k'. split; [|exact EQ]. rewrite <- D.
  rewrite (GetKey_named_file _ (SKI k) (suffix_of_key k) fperm (content pem)
             dperm entries1); try done.
  - intros c. rewrite F2. apply F1.
  - cbn. by rewrite N2.
  - intros n file. unfold entries1, file_name. rewrite lookup_insert.
    case_decide as X; [intros [= <-]; eauto|]. apply SOLE.
  - apply lookup_insert_eq.
Qed.

(** X22.  [StoreKey] does not create the directory.  On a writable
    store with a non-empty path at which nothing is, whatever errors
    are injected, [StoreKey] of a key that the codec encodes makes the
    one call of [WriteFile], which cannot open the file; it fails with
    the error of the opening, on the path of the key's file as
    [filepath.Join] returns it, inside the words of the variant, and
    leaves the disk as it was, without the directory. *)
Theorem StoreKey_missing_directory ks k pem w :
  path ks <> "" ->
  readOnly ks = false ->
  nodes w !! path ks = None ->
  record_of (pwd ks) k = Some (Ok pem) ->
  exists e,
    StoreKey ks (Some k) w
    = (Some (errorString
               (label_of_key k ++ " ["
                ++ Error (PathError "open"
                            (Path_string (filepath_Join (path ks) (file_name k)))
                            e)
                ++ "]")),
       logged (SysWriteFile (filepath_Join (path ks) (file_name k))
                 (content pem) mode_0600) w).
Proof.
  intros _ RO N R. rewrite (StoreKey_cases _ _ _ RO), R.
  unfold ioutil_WriteFile.
  destruct (faults w (SysWriteFile _ _ _)) as [e|]; cbn; [by exists e|].
  rewrite N. by exists ENOENT.
Qed.

End Reopen.

Lemma keys_survive_reopening_witness :
  let w := Demo.world {["/ks" := Directory 493 {["00_sk" := Demo.blob 3]}]} in
  let ks := Demo.store "/ks" false (Some [x70; x77]) in
  let k := aesPrivateKey (Some Demo.sixteen) true in
  let stored := StoreKey (H := Demo.collaborators) ks (Some k) w in
  let reopened := NewFileBasedKeyStore (Some [x70; x77]) "/ks" true (snd stored) in
  snd (fst reopened) = None
  /\ exists k', fst (GetKey (H := Demo.collaborators) (fst (fst reopened))
                       (Demo.ski k) (snd reopened)) = Ok k'
                /\ Key_equal (H := Demo.collaborators) k k' = true.
Proof.
  intros w ks k stored reopened.
  destruct (@keys_survive_reopening Demo.collaborators (Some [x70; x77]) "/ks"
              true k 493 {["00_sk" := Demo.blob 3]} w) as (_ & O & G).
  - discriminate.
  - reflexivity.
  - reflexivity.
  - discriminate.
  - by do 2 eexists.
  - decide_sole_prefix.
  - split; [exact O | exact G].
Defined.

Lemma StoreKey_missing_directory_witness :
  let r := StoreKey (H := Demo.collaborators) (Demo.store "/ks/" false (Some []))
             (Some (sm2PublicKey {| sm2_X := 171; sm2_Y := 5 |}))
             (Demo.world ∅) in
  exists e,
    fst r
    = Some (errorString
        ("failed storing SM2 public key [open /ks/ab_pk: " ++ Errno_string e
         ++ "]"))
    /\ nodes (snd r) = ∅.
Proof.
  intros r.
  destruct (@StoreKey_missing_directory Demo.collaborators
              (Demo.store "/ks/" false (Some []))
              (sm2PublicKey {| sm2_X := 171; sm2_Y := 5 |})
              (Some (Demo.pem_of (Demo.public_to_pem
                       (any_sm2_PublicKey {| sm2_X := 171; sm2_Y := 5 |})
                       (Some []))))
              (Demo.world ∅) ltac:(discriminate) eq_refl eq_refl eq_refl)
    as (e & E).
  exists e. subst r. rewrite E. split; reflexivity.
Defined.
